(** * update-manager: a shallow embedding of [update-manager.c]

    The program is a single C translation unit: eight thin wrappers around
    libostree / GLib calls and a [main] that sequences them with the
    [goto cleanup] idiom.  The embedding keeps that shape:

    - the libostree entry points are the operations [Op] of an interface;
      a program is a finite tree of such calls ([prog]), and a [World]
      answers them (the tree store and the boot environment);
    - GLib output, resource acquisition and release are effects logged in
      the trace next to the calls;
    - the locals of [main] form a [Frame]; a local whose initialiser was
      jumped over by [goto cleanup] holds an indeterminate value. *)

From Stdlib Require Import ZArith String Ascii List Bool Lia.
From stdpp Require Import base tactics option list strings pretty gmap.

Set Default Proof Using "Type".

(** ** GLib: the few primitives the program uses *)

Module GLib.

(** [stdlib.h] *)
Definition EXIT_SUCCESS : Z := 0.
Definition EXIT_FAILURE : Z := 1.

(** The newline escape of the C format strings. *)
Definition nl : string := String (ascii_of_nat 10) EmptyString.

(** [GError]: domain quark, code and message. *)
Record GError := { domain : string; code : Z; message : string }.

Definition G_IO_ERROR : string := "g-io-error-quark".
Definition G_IO_ERROR_FAILED : Z := 0.

(** The convention of every fallible call taking a [GError **]: it
    returns [TRUE], or returns [FALSE] and stores an error. *)
Inductive gresult (A : Type) : Type :=
| GOk (a : A)
| GFail (e : GError).
Arguments GOk {A} a.
Arguments GFail {A} e.

Definition is_ok {A} (r : gresult A) : bool :=
  match r with GOk _ => true | GFail _ => false end.

(** [g_strcmp0] on two non-NULL strings: the sign of [strcmp]. *)
Definition g_strcmp0 (str1 str2 : string) : Z :=
  match String.compare str1 str2 with
  | Eq => 0
  | Lt => -1
  | Gt => 1
  end.

(** [g_snprintf (buf, n, fmt, ...)]: at most [n] bytes are written,
    the terminating NUL included, so the buffer receives the first
    [n - 1] characters of the formatted text; with [n = 0] nothing is
    written and the buffer keeps its old contents. *)
Definition g_snprintf (old : string) (n : nat) (formatted : string) : string :=
  match n with
  | O => old
  | S m => String.substring 0 m formatted
  end.

(** [g_set_error (err, ...)] through a non-NULL [err]: the new error is
    stored when [*err] is [NULL]; an error that is already there is kept
    (GLib only warns). *)
Definition g_set_error (err : option GError) (new : GError) : option GError :=
  match err with
  | Some old => Some old
  | None => Some new
  end.

(** Size in bytes of a data pointer on the LP64 targets libostree runs
    on.  [snprintf_cut] below covers every other pointer size. *)
Definition sizeof_pointer : nat := 8.

End GLib.
Import GLib.

(** ** The libostree interface *)

Module Ostree.

(** An opaque [GKeyFile *] handed out by the boot environment. *)
Definition GKeyFile := nat.

(** [OstreeRepo] objects are created by [ostree_repo_new] for a path. *)
Record OstreeRepo := { repo_path : string }.

(** The object returned by [ostree_sysroot_new_default]. *)
Inductive OstreeSysroot := default_sysroot.

(** The calls into the tree store and the boot environment, with the
    arguments the program chooses.  Cancellables and the unused option
    arguments are always [NULL] in the source and are left out. *)
Inductive Op : Type :=
| ostree_repo_open (repo : OstreeRepo)
| ostree_repo_remote_list
| ostree_repo_remote_add (name url : string)
| ostree_repo_pull_with_options (remote_name : string) (refs : list string)
| ostree_repo_resolve_rev (refspec : string) (allow_noent : bool)
| ostree_sysroot_load
| ostree_sysroot_origin_new_from_refspec (refspec : string)
| ostree_sysroot_stage_tree_with_options
    (osname revision : string) (origin : GKeyFile)
| ostree_sysroot_cleanup.

(** What each call hands back.  [ostree_repo_remote_list] has no
    [GError **]: it returns a NULL-terminated array or [NULL] (the
    count it also stores in [n_repos] is never read by the program).
    [ostree_sysroot_origin_new_from_refspec] returns a pointer, which
    the program tests against [NULL]. *)
Definition reply_type (o : Op) : Type :=
  match o with
  | ostree_repo_open _ => gresult unit
  | ostree_repo_remote_list => option (list string)
  | ostree_repo_remote_add _ _ => gresult unit
  | ostree_repo_pull_with_options _ _ => gresult unit
  | ostree_repo_resolve_rev _ _ => gresult string
  | ostree_sysroot_load => gresult unit
  | ostree_sysroot_origin_new_from_refspec _ => option GKeyFile
  | ostree_sysroot_stage_tree_with_options _ _ _ => gresult unit
  | ostree_sysroot_cleanup => gresult unit
  end.

(** Replies as they are written to the trace. *)
Inductive Reply : Type :=
| RStatus (r : gresult unit)
| RStrv (l : option (list string))
| RRev (r : gresult string)
| RKeyFile (k : option GKeyFile).

Definition log_reply (o : Op) : reply_type o -> Reply :=
  match o with
  | ostree_repo_open _ => RStatus
  | ostree_repo_remote_list => RStrv
  | ostree_repo_remote_add _ _ => RStatus
  | ostree_repo_pull_with_options _ _ => RStatus
  | ostree_repo_resolve_rev _ _ => RRev
  | ostree_sysroot_load => RStatus
  | ostree_sysroot_origin_new_from_refspec _ => RKeyFile
  | ostree_sysroot_stage_tree_with_options _ _ _ => RStatus
  | ostree_sysroot_cleanup => RStatus
  end.

(** A reply is a success when it is [TRUE], respectively non-[NULL]. *)
Definition succeeded (r : Reply) : bool :=
  match r with
  | RStatus r => is_ok r
  | RStrv l => bool_decide (is_Some l)
  | RRev r => is_ok r
  | RKeyFile k => bool_decide (is_Some k)
  end.

End Ostree.
Import Ostree.

(** ** Programs over the interface *)

(** The objects whose ownership the program holds at some point. *)
Inductive Resource :=
| the_repo_path   (* GFile *repo_path, local to open_repo *)
| the_repo        (* OstreeRepo *repo *)
| the_remote_list (* char **remote_list *)
| the_new_commit  (* char *new_commit *)
| the_sysroot     (* OstreeSysroot *sysroot *)
| the_origin      (* GKeyFile *origin *)
| the_options     (* GVariant *options, local to pull_remote *)
| the_error       (* GError *error *).

(** The locals of [main] that are declared after the first [goto cleanup]
    and tested in [cleanup]. *)
Inductive Var := v_remote_list | v_new_commit | v_sysroot | v_origin.

Inductive ReleaseFn :=
| g_object_unref | g_key_file_unref | g_strfreev | g_free | g_variant_unref
| g_clear_error.

(** What a release function is applied to: an object the program
    acquired, or the indeterminate contents of a local. *)
Inductive Target :=
| Object (r : Resource)
| Junk (v : Var).

Inductive Stream := stdout | stderr.

Inductive Effect :=
| Print (s : Stream) (text : string)     (* g_print / g_printerr *)
| Acquire (r : Resource)
| Release (f : ReleaseFn) (t : Target)
| ReadIndeterminate (v : Var).           (* read of a never-initialised local *)

Inductive Fault :=
| NullDereference.                       (* error->message with error == NULL *)

Inductive Event :=
| Called (o : Op) (r : Reply)
| Did (e : Effect)
| Trapped (f : Fault).

Inductive prog (R : Type) : Type :=
| Ret (r : R)
| Trap (f : Fault)
| Emit (e : Effect) (k : prog R)
| Ask (o : Op) (k : reply_type o -> prog R).
Arguments Ret {R} r.
Arguments Trap {R} f.
Arguments Emit {R} e k.
Arguments Ask {R} o k.

Fixpoint bind {A B} (p : prog A) (f : A -> prog B) : prog B :=
  match p with
  | Ret a => f a
  | Trap t => Trap t
  | Emit e k => Emit e (bind k f)
  | Ask o k => Ask o (fun x => bind (k x) f)
  end.

#[global] Instance prog_ret : MRet prog := @Ret.
#[global] Instance prog_bind : MBind prog := fun A B f p => bind p f.

Definition call (o : Op) : prog (reply_type o) := Ask o Ret.
Definition emit (e : Effect) : prog unit := Emit e (Ret tt).
Definition g_print (text : string) : prog unit := emit (Print stdout text).
Definition g_printerr (text : string) : prog unit := emit (Print stderr text).
Definition acquire (r : Resource) : prog unit := emit (Acquire r).
Definition release (f : ReleaseFn) (t : Target) : prog unit := emit (Release f t).

(** A world answers every call, threading its own state. *)
Record World := {
  wstate : Type;
  respond : forall o : Op, wstate -> reply_type o * wstate
}.

Record Run (W R : Type) := {
  trace : list Event;
  result : option R;     (* [None]: the process trapped *)
  final : W
}.
Arguments trace {W R} r.
Arguments result {W R} r.
Arguments final {W R} r.

Fixpoint run {R} (w : World) (p : prog R) (s : wstate w) : Run (wstate w) R :=
  match p with
  | Ret r => {| trace := []; result := Some r; final := s |}
  | Trap f => {| trace := [Trapped f]; result := None; final := s |}
  | Emit e k =>
      let r := run w k s in
      {| trace := Did e :: trace r; result := result r; final := final r |}
  | Ask o k =>
      let '(x, s1) := respond w o s in
      let r := run w (k x) s1 in
      {| trace := Called o (log_reply o x) :: trace r;
         result := result r; final := final r |}
  end.

(** [always p Q]: every behaviour of [p], whatever the world answers,
    has a trace and a result related by [Q]. *)
Fixpoint always {R} (p : prog R) (Q : list Event -> option R -> Prop) : Prop :=
  match p with
  | Ret r => Q [] (Some r)
  | Trap f => Q [Trapped f] None
  | Emit e k => always k (fun t r => Q (Did e :: t) r)
  | Ask o k =>
      forall x : reply_type o,
        always (k x) (fun t r => Q (Called o (log_reply o x) :: t) r)
  end.

(** The collaborator calls of a trace, in order. *)
Fixpoint calls (t : list Event) : list (Op * Reply) :=
  match t with
  | [] => []
  | Called o r :: t' => (o, r) :: calls t'
  | _ :: t' => calls t'
  end.

Fixpoint effects (t : list Event) : list Effect :=
  match t with
  | [] => []
  | Did e :: t' => e :: effects t'
  | _ :: t' => effects t'
  end.

(** ** The program *)

(** *** The wrappers (lines 8-116)

    A [GError **error] parameter is passed as the current contents of the
    caller's [error] variable and returned updated. *)

(** How a [gboolean] result and its [GError] reach the caller. *)
Definition returned {A} (r : gresult A) (error : option GError)
  : option A * option GError :=
  match r with
  | GOk a => (Some a, error)
  | GFail e => (None, Some e)
  end.

Definition set_by {A} (r : gresult A) : prog unit :=
  if is_ok r then mret tt else acquire the_error.

(** [open_repo] (lines 9-22). *)
Definition open_repo (path : string) (error : option GError)
  : prog (option OstreeRepo * option GError) :=
  acquire the_repo_path;;                      (* g_file_new_for_path *)
  let repo := {| repo_path := path |} in
  acquire the_repo;;                           (* ostree_repo_new *)
  r ← call (ostree_repo_open repo);
  set_by r;;
  match r with
  | GFail e =>
      release g_object_unref (Object the_repo_path);;
      release g_object_unref (Object the_repo);;
      mret (None, Some e)
  | GOk _ =>
      release g_object_unref (Object the_repo_path);;
      mret (Some repo, error)
  end.

(** [list_remote] (lines 25-37). *)
Definition list_remote (error : option GError)
  : prog (option (list string) * option GError) :=
  remote_list ← call ostree_repo_remote_list;
  match remote_list with
  | None =>
      match error with
      | None => acquire the_error              (* g_set_error allocates *)
      | Some _ => mret tt
      end;;
      mret (None,
            g_set_error error
              {| domain := G_IO_ERROR; code := G_IO_ERROR_FAILED;
                 message := "Failed to list remotes" |})
  | Some l =>
      acquire the_remote_list;;                (* transfer full *)
      mret (Some l, error)
  end.

(** [add_remote] (lines 40-48). *)
Definition add_remote (remote_name remote_url : string) (error : option GError)
  : prog (option unit * option GError) :=
  r ← call (ostree_repo_remote_add remote_name remote_url);
  set_by r;;
  mret (returned r error).

(** [pull_remote] (lines 51-69): the refs are wrapped in an options
    dictionary and handed to the transfer primitive, whatever they are. *)
Definition pull_remote (remote_name : string) (refs : list string)
    (error : option GError)
  : prog (option unit * option GError) :=
  acquire the_options;;                        (* g_variant_builder_end *)
  r ← call (ostree_repo_pull_with_options remote_name refs);
  set_by r;;
  release g_variant_unref (Object the_options);;
  mret (returned r error).

(** [resolve_rev] (lines 72-80); [allow_noent] is [0]. *)
Definition resolve_rev (ref : string) (error : option GError)
  : prog (option string * option GError) :=
  r ← call (ostree_repo_resolve_rev ref false);
  set_by r;;
  (if is_ok r then acquire the_new_commit else mret tt);;
  mret (returned r error).

(** [load_deployments] (lines 84-90). *)
Definition load_deployments (error : option GError)
  : prog (option unit * option GError) :=
  r ← call ostree_sysroot_load;
  set_by r;;
  mret (returned r error).

(** The text [create_origin] leaves in [refspec_str] (line 101):
    [refspec_str] is a [char *] parameter, so [sizeof(refspec_str)] is the
    size of a pointer. *)
Definition refspec_of (old remote_name ref : string) : string :=
  g_snprintf old sizeof_pointer (remote_name +:+ ":" +:+ ref).

(** [create_origin] (lines 93-104).  It takes no [GError **]. *)
Definition create_origin (refspec_str remote_name ref : string)
  : prog (bool * string * option GKeyFile) :=
  let refspec_str := refspec_of refspec_str remote_name ref in
  origin ← call (ostree_sysroot_origin_new_from_refspec refspec_str);
  match origin with
  | Some _ => acquire the_origin
  | None => mret tt
  end;;
  mret (bool_decide (is_Some origin), refspec_str, origin).

(** [deploy_tree] (lines 107-116). *)
Definition deploy_tree (osname new_commit : string) (origin : GKeyFile)
    (error : option GError)
  : prog (option unit * option GError) :=
  r ← call (ostree_sysroot_stage_tree_with_options osname new_commit origin);
  set_by r;;
  mret (returned r error).

(** *** The locals of [main] *)

(** A local either holds a value or, when the jump to [cleanup] passed
    over its initialiser, is indeterminate. *)
Inductive slot (A : Type) : Type :=
| Indeterminate
| Holds (a : A).
Arguments Indeterminate {A}.
Arguments Holds {A} a.

Record Frame := {
  error : option GError;                       (* line 123 *)
  status : Z;                                  (* line 126 *)
  repo : option OstreeRepo;                    (* line 128 *)
  remote_list : slot (option (list string));   (* line 136 *)
  new_commit : slot (option string);           (* line 183 *)
  sysroot : slot (option OstreeSysroot);       (* line 191 *)
  origin : slot (option GKeyFile)              (* line 199 *)
}.

(** The frame once lines 120-128 have run. *)
Definition entry_frame : Frame :=
  {| error := None; status := EXIT_SUCCESS; repo := None;
     remote_list := Indeterminate; new_commit := Indeterminate;
     sysroot := Indeterminate; origin := Indeterminate |}.

Definition set_error (e : option GError) (F : Frame) : Frame :=
  {| error := e; status := status F; repo := repo F;
     remote_list := remote_list F; new_commit := new_commit F;
     sysroot := sysroot F; origin := origin F |}.
Definition set_status (z : Z) (F : Frame) : Frame :=
  {| error := error F; status := z; repo := repo F;
     remote_list := remote_list F; new_commit := new_commit F;
     sysroot := sysroot F; origin := origin F |}.
Definition set_repo (r : option OstreeRepo) (F : Frame) : Frame :=
  {| error := error F; status := status F; repo := r;
     remote_list := remote_list F; new_commit := new_commit F;
     sysroot := sysroot F; origin := origin F |}.
Definition set_remote_list (l : option (list string)) (F : Frame) : Frame :=
  {| error := error F; status := status F; repo := repo F;
     remote_list := Holds l; new_commit := new_commit F;
     sysroot := sysroot F; origin := origin F |}.
Definition set_new_commit (c : option string) (F : Frame) : Frame :=
  {| error := error F; status := status F; repo := repo F;
     remote_list := remote_list F; new_commit := Holds c;
     sysroot := sysroot F; origin := origin F |}.
Definition set_sysroot (s : option OstreeSysroot) (F : Frame) : Frame :=
  {| error := error F; status := status F; repo := repo F;
     remote_list := remote_list F; new_commit := new_commit F;
     sysroot := Holds s; origin := origin F |}.
Definition set_origin (o : option GKeyFile) (F : Frame) : Frame :=
  {| error := error F; status := status F; repo := repo F;
     remote_list := remote_list F; new_commit := new_commit F;
     sysroot := sysroot F; origin := Holds o |}.

(** [error->message]: a trap when [error] is [NULL]. *)
Definition error_message (error : option GError) : prog string :=
  match error with
  | Some e => mret (message e)
  | None => Trap NullDereference
  end.

(** [status = EXIT_FAILURE; goto cleanup;] *)
Definition fail_to_cleanup (F : Frame) : prog Frame :=
  mret (set_status EXIT_FAILURE F).

(** The listing loop of lines 142-144 ([i] counts from the argument). *)
Fixpoint print_remotes (i : Z) (remote_list : list string) : prog unit :=
  match remote_list with
  | [] => mret tt
  | r :: rest =>
      g_print ("Remote " +:+ pretty (i + 1)%Z +:+ ": " +:+ r +:+ nl);;
      print_remotes (i + 1)%Z rest
  end.

(** The search loop of lines 149-154: the value of [exist] after it. *)
Fixpoint remote_exists (remote_list : list string) (remote_name : string) : bool :=
  match remote_list with
  | [] => false
  | r :: rest =>
      if (g_strcmp0 r remote_name =? 0)%Z then true
      else remote_exists rest remote_name
  end.

(** Lines 146-174: register the remote unless it is listed.  The result
    is [None] where the source jumps to [cleanup]. *)
Definition ensure_remote (remote_name remote_url : string)
    (remote_list : option (list string)) (error : option GError)
  : prog (option unit * option GError) :=
  match remote_list with
  | Some l =>
      if remote_exists l remote_name then
        g_print ("Remote '" +:+ remote_name +:+ "' already exists." +:+ nl);;
        mret (Some tt, error)
      else
        '(ok, error) ← add_remote remote_name remote_url error;
        match ok with
        | None =>
            m ← error_message error;
            g_printerr ("Failed to add remote: " +:+ m +:+ nl);;
            mret (None, error)
        | Some _ =>
            g_print ("Remote '" +:+ remote_name +:+ "' added successfully." +:+ nl);;
            mret (Some tt, error)
        end
  | None =>
      '(ok, error) ← add_remote remote_name remote_url error;
      match ok with
      | None =>
          m ← error_message error;
          g_printerr ("Failed to add remote: " +:+ m +:+ nl);;
          mret (None, error)
      | Some _ =>
          g_print ("Remote '" +:+ remote_name +:+ "' added successfully." +:+ nl);;
          mret (Some tt, error)
      end
  end.

(** Lines 136-174, the registry phase of [main]: list the remotes, print
    them, and register [remote_name] unless it is listed.  The result is
    the value of [remote_list], whether control goes on to the pull
    ([Some]) or jumps to [cleanup] ([None]), and [error]. *)
Definition registry_step (remote_name remote_url : string)
    (error : option GError)
  : prog (option (list string) * option unit * option GError) :=
  '(l, error) ← list_remote error;
  match l with
  | None =>
      m ← error_message error;
      g_printerr ("Failed to list remotes: " +:+ m +:+ nl);;
      mret (l, None, error)
  | Some names =>
      print_remotes 0 names;;
      '(ok, error) ← ensure_remote remote_name remote_url l error;
      mret (l, ok, error)
  end.

(** *** [main] up to the [cleanup] label (lines 120-221)

    The result is the frame with which control reaches [cleanup], by a
    [goto] or by falling through. *)
Definition main_body : prog Frame :=
  let osname := "myos" in
  let remote_name := "linuxmint" in
  let remote_url := "https://updates.myserver.com/ostreerepo" in
  let ref := "myOS/amd64/stable" in
  let refs := [ref] in
  let F := entry_frame in
  '(r, e) ← open_repo "/sysroot/ostree/repo" (error F);
  let F := set_repo r (set_error e F) in
  match r with
  | None =>
      m ← error_message (error F);
      g_printerr ("Failed to open repo: " +:+ m +:+ nl);;
      fail_to_cleanup F
  | Some _ =>
  g_print ("Repository opened successfully!" +:+ nl);;
  '(l, ok, e) ← registry_step remote_name remote_url (error F);
  let F := set_remote_list l (set_error e F) in
  match ok with
  | None => fail_to_cleanup F
  | Some _ =>
  '(ok, e) ← pull_remote remote_name refs (error F);
  let F := set_error e F in
  match ok with
  | None =>
      m ← error_message (error F);
      g_print ("Failed to pull refs: " +:+ m +:+ nl);;
      fail_to_cleanup F
  | Some _ =>
  g_print ("Pull from remote '" +:+ remote_name +:+ "' completed successfully." +:+ nl);;
  '(c, e) ← resolve_rev ref (error F);
  let F := set_new_commit c (set_error e F) in
  match c with
  | None =>
      m ← error_message (error F);
      g_printerr ("Failed to resolve commits: " +:+ m +:+ nl);;
      fail_to_cleanup F
  | Some commit =>
  g_print ("Resolved commit: " +:+ commit +:+ nl);;
  acquire the_sysroot;;                        (* ostree_sysroot_new_default *)
  let F := set_sysroot (Some default_sysroot) F in
  '(ok, e) ← load_deployments (error F);
  let F := set_error e F in
  match ok with
  | None =>
      m ← error_message (error F);
      g_printerr ("Failed to load deployments: " +:+ m +:+ nl);;
      fail_to_cleanup F
  | Some _ =>
  g_print ("Sysroot deployments loaded successfully." +:+ nl);;
  '(ok, _, o) ← create_origin "" remote_name ref;
  let F := set_origin o F in
  match o with
  | None =>
      m ← error_message (error F);
      g_printerr ("Failed to create an .origin file: " +:+ m +:+ nl);;
      fail_to_cleanup F
  | Some keyfile =>
  g_print ("Origin file created successfully." +:+ nl);;
  '(ok, e) ← deploy_tree osname commit keyfile (error F);
  let F := set_error e F in
  match ok with
  | None =>
      m ← error_message (error F);
      g_printerr ("Failed to deploy tree: " +:+ m +:+ nl);;
      fail_to_cleanup F
  | Some _ =>
  g_print ("Deployed new commit " +:+ commit +:+ ". It will boot on next restart." +:+ nl);;
  r ← call ostree_sysroot_cleanup;
  set_by r;;
  let F := set_error (snd (returned r (error F))) F in
  match r with
  | GFail _ =>
      m ← error_message (error F);
      g_printerr ("OSTree cleanup failed: " +:+ m +:+ nl);;
      fail_to_cleanup F
  | GOk _ =>
      g_print ("OSTree cleanup completed successfully." +:+ nl);;
      mret F
  end end end end end end end end.

(** *** The [cleanup] block (lines 223-246)

    [stack v] tells whether the indeterminate contents of local [v]
    happen to compare unequal to [NULL]. *)

(** [if (x) release (x);] for a local [x].  When [x] was never
    initialised the test reads its stale contents, and a non-[NULL] one is
    handed to the release function.  The call is logged with a [Junk]
    target; it is a wild free, after which nothing is determined by the
    program: the events logged behind it are what the program would do
    were the call to come back, and the exit of such a run is
    [Undetermined] (see [exit_of]). *)
Definition release_local {A} (stack : Var -> bool) (v : Var) (f : ReleaseFn)
    (r : Resource) (x : slot (option A)) : prog unit :=
  match x with
  | Holds (Some _) => release f (Object r)
  | Holds None => mret tt
  | Indeterminate =>
      emit (ReadIndeterminate v);;
      if stack v then release f (Junk v) else mret tt
  end.

Definition cleanup (stack : Var -> bool) (F : Frame) : prog Z :=
  match error F with
  | Some _ => release g_clear_error (Object the_error)
  | None => mret tt
  end;;
  match repo F with
  | Some _ => release g_object_unref (Object the_repo)
  | None => mret tt
  end;;
  release_local stack v_remote_list g_strfreev the_remote_list (remote_list F);;
  release_local stack v_new_commit g_free the_new_commit (new_commit F);;
  release_local stack v_sysroot g_object_unref the_sysroot (sysroot F);;
  release_local stack v_origin g_object_unref the_origin (origin F);;
  (if (status F =? EXIT_SUCCESS)%Z
   then g_print ("All operations completed successfully." +:+ nl)
   else g_printerr ("Update failed" +:+ nl));;
  mret (status F).

(** [main] (lines 118-247). *)
Definition main (stack : Var -> bool) : prog Z :=
  F ← main_body;
  cleanup stack F.

(** The process entry: the C runtime passes the argument vector and the
    environment, and [int main()] has no parameter to receive them. *)
Definition start (argv envp : list string) (stack : Var -> bool) : prog Z :=
  main stack.

(** ** Worlds *)

(** A scripted world: one fixed answer per entry point (each is called at
    most once in a run of [main]). *)
Record Script := {
  on_open : gresult unit;
  on_remote_list : option (list string);
  on_remote_add : gresult unit;
  on_pull : gresult unit;
  on_resolve_rev : gresult string;
  on_load : gresult unit;
  on_origin_new : option GKeyFile;
  on_stage : gresult unit;
  on_cleanup : gresult unit
}.

Definition scripted (k : Script) : World :=
  {| wstate := unit;
     respond := fun o s =>
       match o return reply_type o * unit with
       | ostree_repo_open _ => (on_open k, s)
       | ostree_repo_remote_list => (on_remote_list k, s)
       | ostree_repo_remote_add _ _ => (on_remote_add k, s)
       | ostree_repo_pull_with_options _ _ => (on_pull k, s)
       | ostree_repo_resolve_rev _ _ => (on_resolve_rev k, s)
       | ostree_sysroot_load => (on_load k, s)
       | ostree_sysroot_origin_new_from_refspec _ => (on_origin_new k, s)
       | ostree_sysroot_stage_tree_with_options _ _ _ => (on_stage k, s)
       | ostree_sysroot_cleanup => (on_cleanup k, s)
       end |}.

Definition io_error (msg : string) : GError :=
  {| domain := G_IO_ERROR; code := G_IO_ERROR_FAILED; message := msg |}.

(** Every collaborator call succeeds; the store lists one other remote. *)
Definition all_good : Script :=
  {| on_open := GOk tt;
     on_remote_list := Some ["flathub"];
     on_remote_add := GOk tt;
     on_pull := GOk tt;
     on_resolve_rev := GOk "c0ffee";
     on_load := GOk tt;
     on_origin_new := Some 1;
     on_stage := GOk tt;
     on_cleanup := GOk tt |}.

(** A stack on which every indeterminate local reads as non-[NULL]. *)
Definition dirty_stack : Var -> bool := fun _ => true.
Definition zeroed_stack : Var -> bool := fun _ => false.

(** A host with a tree store and a boot environment.

    The store keeps its remotes in a table keyed by name.  Two facts of
    libostree's documented behaviour are modelled: [ostree_repo_remote_list]
    returns [NULL] when no remote is configured, and
    [ostree_repo_remote_add] refuses a name that is already configured.
    Staging puts the new deployment in front; cleanup keeps the pending
    deployment and one rollback.  Whether the remaining calls succeed is
    scripted. *)
Record Host := {
  remotes : gmap string string;
  deployments : list (string * string * GKeyFile)
}.

Definition listing (m : gmap string string) : option (list string) :=
  match elements (dom m) with
  | [] => None
  | names => Some names
  end.

Definition host (k : Script) : World :=
  {| wstate := Host;
     respond := fun o h =>
       match o return reply_type o * Host with
       | ostree_repo_open _ => (on_open k, h)
       | ostree_repo_remote_list => (listing (remotes h), h)
       | ostree_repo_remote_add name url =>
           match remotes h !! name with
           | Some _ =>
               (GFail (io_error ("Remote configuration for " +:+ name
                                 +:+ " already exists")), h)
           | None =>
               (GOk tt, {| remotes := <[name := url]> (remotes h);
                           deployments := deployments h |})
           end
       | ostree_repo_pull_with_options _ _ => (on_pull k, h)
       | ostree_repo_resolve_rev _ _ => (on_resolve_rev k, h)
       | ostree_sysroot_load => (on_load k, h)
       | ostree_sysroot_origin_new_from_refspec _ => (on_origin_new k, h)
       | ostree_sysroot_stage_tree_with_options osname rev origin =>
           match on_stage k with
           | GOk _ =>
               (GOk tt, {| remotes := remotes h;
                           deployments := (osname, rev, origin) :: deployments h |})
           | GFail e => (GFail e, h)
           end
       | ostree_sysroot_cleanup =>
           match on_cleanup k with
           | GOk _ =>
               (GOk tt, {| remotes := remotes h;
                           deployments := take 2 (deployments h) |})
           | GFail e => (GFail e, h)
           end
       end |}.

(** A freshly initialised store: no remote yet, one booted deployment. *)
Definition fresh_host : Host :=
  {| remotes := ∅; deployments := [("myos", "0ld", 0)] |}.

(** ** Vocabulary of the properties *)

(** The two calls that change what boots next. *)
Definition mutates_boot (o : Op) : bool :=
  match o with
  | ostree_sysroot_stage_tree_with_options _ _ _ => true
  | ostree_sysroot_cleanup => true
  | _ => false
  end.

(** A failed call of a step that comes before staging. *)
Definition fails_before_stage (c : Op * Reply) : bool :=
  negb (mutates_boot c.1) && negb (succeeded c.2).

Definition is_pull (o : Op) : bool :=
  match o with ostree_repo_pull_with_options _ _ => true | _ => false end.
Definition is_resolve (o : Op) : bool :=
  match o with ostree_repo_resolve_rev _ _ => true | _ => false end.
Definition is_stage (o : Op) : bool :=
  match o with ostree_sysroot_stage_tree_with_options _ _ _ => true | _ => false end.
Definition is_prune (o : Op) : bool :=
  match o with ostree_sysroot_cleanup => true | _ => false end.
Definition is_build_origin (o : Op) : bool :=
  match o with ostree_sysroot_origin_new_from_refspec _ => true | _ => false end.
Definition is_remote_add (o : Op) : bool :=
  match o with ostree_repo_remote_add _ _ => true | _ => false end.

(** The transaction's stages, as the calls walk through them. *)
Inductive Stage :=
| Idle | Opened | Listed | RemoteEnsured | Fetched | Resolved | BootLoaded
| OriginBuilt | Staged | Pruned | Failed.

(** The stage a successful call leads to; [None] when the call is out of
    turn.  From [Listed] the pull may follow directly: the remote was
    found in the listing and needs no registration. *)
Definition expected (st : Stage) (o : Op) : option Stage :=
  match st, o with
  | Idle, ostree_repo_open _ => Some Opened
  | Opened, ostree_repo_remote_list => Some Listed
  | Listed, ostree_repo_remote_add _ _ => Some RemoteEnsured
  | Listed, ostree_repo_pull_with_options _ _ => Some Fetched
  | RemoteEnsured, ostree_repo_pull_with_options _ _ => Some Fetched
  | Fetched, ostree_repo_resolve_rev _ _ => Some Resolved
  | Resolved, ostree_sysroot_load => Some BootLoaded
  | BootLoaded, ostree_sysroot_origin_new_from_refspec _ => Some OriginBuilt
  | OriginBuilt, ostree_sysroot_stage_tree_with_options _ _ _ => Some Staged
  | Staged, ostree_sysroot_cleanup => Some Pruned
  | _, _ => None
  end.

(** A failed call ends the walk in [Failed], from which nothing is
    expected. *)
Fixpoint follows (st : Stage) (cs : list (Op * Reply)) : option Stage :=
  match cs with
  | [] => Some st
  | (o, r) :: cs' =>
      match expected st o with
      | Some st' => follows (if succeeded r then st' else Failed) cs'
      | None => None
      end
  end.

(** Every call satisfying [after] comes later than a successful call
    satisfying [before]. *)
Fixpoint only_after (before after : Op -> bool) (seen : bool)
    (cs : list (Op * Reply)) : bool :=
  match cs with
  | [] => true
  | (o, r) :: cs' =>
      (if after o then seen else true)
      && only_after before after (seen || (before o && succeeded r)) cs'
  end.

(** The names of the first listing answered in a run, if any. *)
Fixpoint listed_names (cs : list (Op * Reply)) : option (list string) :=
  match cs with
  | [] => None
  | (_, RStrv l) :: _ => l
  | _ :: cs' => listed_names cs'
  end.

(** Within the ensure-remote step the registration call is made exactly
    when the listing lacks [remote_name]. *)
Definition registers_when_unlisted (remote_name : string)
    (cs : list (Op * Reply)) : bool :=
  match listed_names cs with
  | Some names =>
      eqb (existsb (fun c => is_remote_add c.1) cs)
          (negb (remote_exists names remote_name))
  | None => negb (existsb (fun c => is_remote_add c.1) cs)
  end.

(** The stage in which a run with the given exit status has ended. *)
Definition stage_of_exit (r : option Z) : Stage :=
  match r with
  | Some 0%Z => Pruned
  | _ => Failed
  end.

(** The arguments [main] fixes at lines 120-125 and 129. *)
Definition fixed_arguments (o : Op) : bool :=
  match o with
  | ostree_repo_open repo => bool_decide (repo_path repo = "/sysroot/ostree/repo")
  | ostree_repo_remote_list => true
  | ostree_repo_remote_add name url =>
      bool_decide (name = "linuxmint")
      && bool_decide (url = "https://updates.myserver.com/ostreerepo")
  | ostree_repo_pull_with_options name refs =>
      bool_decide (name = "linuxmint")
      && bool_decide (refs = ["myOS/amd64/stable"])
  | ostree_repo_resolve_rev ref allow_noent =>
      bool_decide (ref = "myOS/amd64/stable") && negb allow_noent
  | ostree_sysroot_load => true
  | ostree_sysroot_origin_new_from_refspec refspec =>
      bool_decide (refspec = refspec_of "" "linuxmint" "myOS/amd64/stable")
  | ostree_sysroot_stage_tree_with_options osname _ _ =>
      bool_decide (osname = "myos")
  | ostree_sysroot_cleanup => true
  end.

(** Which function gives back which object: [GFile], [OstreeRepo] and
    [OstreeSysroot] are [GObject]s; a [GKeyFile] is not. *)
Definition gives_back (f : ReleaseFn) (r : Resource) : bool :=
  match f, r with
  | g_object_unref, (the_repo_path | the_repo | the_sysroot) => true
  | g_key_file_unref, the_origin => true
  | g_strfreev, the_remote_list => true
  | g_free, the_new_commit => true
  | g_variant_unref, the_options => true
  | g_clear_error, the_error => true
  | _, _ => false
  end.

#[global] Instance Resource_eq_dec : EqDecision Resource.
Proof. solve_decision. Defined.
#[global] Instance Var_eq_dec : EqDecision Var.
Proof. solve_decision. Defined.

(** How often an acquired object is handed to a function that gives it
    back. *)
Fixpoint times_released (r : Resource) (es : list Effect) : nat :=
  match es with
  | [] => 0
  | Release f (Object r') :: es' =>
      (if bool_decide (r' = r) && gives_back f r then 1 else 0)
      + times_released r es'
  | _ :: es' => times_released r es'
  end.

Definition acquired (r : Resource) (es : list Effect) : bool :=
  existsb (fun e => match e with Acquire r' => bool_decide (r' = r) | _ => false end) es.

Definition reads_indeterminate (es : list Effect) : bool :=
  existsb (fun e => match e with ReadIndeterminate _ => true | _ => false end) es.

Definition releases_junk (es : list Effect) : bool :=
  existsb (fun e => match e with Release _ (Junk _) => true | _ => false end) es.

(** Everything acquired is given back exactly once, and no local is read
    that was never initialised. *)
Definition tidy (es : list Effect) : bool :=
  forallb (fun r => negb (acquired r es) || bool_decide (times_released r es = 1))
    [the_repo_path; the_repo; the_remote_list; the_new_commit; the_sysroot;
     the_origin; the_options; the_error]
  && negb (reads_indeterminate es)
  && negb (releases_junk es).

(** How the process ends.  A run that has handed a stale pointer to a
    release function has no exit the program determines; otherwise the
    process ends in the trap, or [main] returns its status. *)
Inductive Exit :=
| Returned (status : Z)
| Killed (f : Fault)
| Undetermined.

Definition exit_after (es : list Effect) (r : option Z) : Exit :=
  if releases_junk es then Undetermined
  else match r with
       | Some z => Returned z
       | None => Killed NullDereference
       end.

Definition exit_of {W} (r : Run W Z) : Exit :=
  exit_after (effects (trace r)) (result r).

(** The registration block of [main] (lines 146-174) on a host, given the
    listing the store returns at that moment, [NULL] for an empty store. *)
Definition register_on (k : Script) (h : Host) (name url : string)
    (error : option GError) : Run Host (option unit * option GError) :=
  run (host k) (ensure_remote name url (listing (remotes h)) error) h.

(** ** Scenarios *)

(** The pull is refused; everything else would succeed. *)
Definition pull_fails : Script :=
  {| on_open := GOk tt;
     on_remote_list := Some ["flathub"];
     on_remote_add := GOk tt;
     on_pull := GFail (io_error "While fetching: connection timed out");
     on_resolve_rev := GOk "c0ffee";
     on_load := GOk tt;
     on_origin_new := Some 1;
     on_stage := GOk tt;
     on_cleanup := GOk tt |}.

(** A host whose store already lists a remote. *)
Definition used_host : Host :=
  {| remotes := {[ "flathub" := "https://dl.flathub.org/repo" ]};
     deployments := [("myos", "0ld", 0); ("myos", "01der", 0)] |}.

(** Staging succeeds and the cleanup that follows fails. *)
Definition prune_fails : Script :=
  {| on_open := GOk tt;
     on_remote_list := Some ["flathub"];
     on_remote_add := GOk tt;
     on_pull := GOk tt;
     on_resolve_rev := GOk "c0ffee";
     on_load := GOk tt;
     on_origin_new := Some 1;
     on_stage := GOk tt;
     on_cleanup := GFail (io_error "Unable to prune: read-only file system") |}.

(** The store cannot be opened. *)
Definition open_fails : Script :=
  {| on_open := GFail (io_error "opendir(/sysroot/ostree/repo): No such file or directory");
     on_remote_list := Some ["flathub"];
     on_remote_add := GOk tt;
     on_pull := GOk tt;
     on_resolve_rev := GOk "c0ffee";
     on_load := GOk tt;
     on_origin_new := Some 1;
     on_stage := GOk tt;
     on_cleanup := GOk tt |}.

(** Everything succeeds up to the origin, for which the boot environment
    hands back [NULL]. *)
Definition origin_is_null : Script :=
  {| on_open := GOk tt;
     on_remote_list := Some ["flathub"];
     on_remote_add := GOk tt;
     on_pull := GOk tt;
     on_resolve_rev := GOk "c0ffee";
     on_load := GOk tt;
     on_origin_new := None;
     on_stage := GOk tt;
     on_cleanup := GOk tt |}.

(** Staging succeeded and the cleanup after it failed. *)
Definition staged_but_not_pruned (cs : list (Op * Reply)) : bool :=
  existsb (fun c => is_stage c.1 && succeeded c.2) cs
  && existsb (fun c => is_prune c.1 && negb (succeeded c.2)) cs.

(** The reading under which a failed prune after a successful stage
    still ends the run with the success status. *)
Definition prune_failure_is_only_a_warning : Prop :=
  forall (w : World) (s : wstate w) (stack : Var -> bool),
    staged_but_not_pruned (calls (trace (run w (main stack) s))) = true ->
    result (run w (main stack) s) = Some EXIT_SUCCESS.

(** The reading under which [pull_remote] refuses an empty set of refs
    itself, without a call to the transfer primitive. *)
Definition empty_pull_is_refused : Prop :=
  forall (w : World) (s : wstate w) (remote_name : string)
         (error : option GError),
    calls (trace (run w (pull_remote remote_name [] error) s)) = []
    /\ exists e, result (run w (pull_remote remote_name [] error) s)
                 = Some (None, Some e).

(** The line [main] prints when call [o] fails with error [e]. *)
Definition report (o : Op) (e : GError) : Effect :=
  match o with
  | ostree_repo_open _ =>
      Print stderr ("Failed to open repo: " +:+ message e +:+ nl)
  | ostree_repo_remote_list =>
      Print stderr ("Failed to list remotes: " +:+ message e +:+ nl)
  | ostree_repo_remote_add _ _ =>
      Print stderr ("Failed to add remote: " +:+ message e +:+ nl)
  | ostree_repo_pull_with_options _ _ =>
      Print stdout ("Failed to pull refs: " +:+ message e +:+ nl)
  | ostree_repo_resolve_rev _ _ =>
      Print stderr ("Failed to resolve commits: " +:+ message e +:+ nl)
  | ostree_sysroot_load =>
      Print stderr ("Failed to load deployments: " +:+ message e +:+ nl)
  | ostree_sysroot_origin_new_from_refspec _ =>
      Print stderr ("Failed to create an .origin file: " +:+ message e +:+ nl)
  | ostree_sysroot_stage_tree_with_options _ _ _ =>
      Print stderr ("Failed to deploy tree: " +:+ message e +:+ nl)
  | ostree_sysroot_cleanup =>
      Print stderr ("OSTree cleanup failed: " +:+ message e +:+ nl)
  end.

(** The error a failed call stored through its [GError **]. *)
Definition stored_error (r : Reply) : option GError :=
  match r with
  | RStatus (GFail e) => Some e
  | RRev (GFail e) => Some e
  | _ => None
  end.

(** A trace of prints to standard output only. *)
Definition quiet (t : list Event) : Prop :=
  Forall (fun e => exists text, e = Did (Print stdout text)) t.

(** A behaviour without collaborator calls that returns [a]. *)
Definition effects_only {A} (a : A) (t : list Event) (r : option A) : Prop :=
  calls t = [] /\ r = Some a.

(** ** Further vocabulary *)


(** The position of an entry point in the interface. *)
Definition entry_point (o : Op) : nat :=
  match o with
  | ostree_repo_open _ => 0
  | ostree_repo_remote_list => 1
  | ostree_repo_remote_add _ _ => 2
  | ostree_repo_pull_with_options _ _ => 3
  | ostree_repo_resolve_rev _ _ => 4
  | ostree_sysroot_load => 5
  | ostree_sysroot_origin_new_from_refspec _ => 6
  | ostree_sysroot_stage_tree_with_options _ _ _ => 7
  | ostree_sysroot_cleanup => 8
  end.

(** The lines written to one stream, in order. *)
Fixpoint printed (s : Stream) (es : list Effect) : list string :=
  match es with
  | [] => []
  | Print stdout text :: es' =>
      match s with
      | stdout => text :: printed s es'
      | stderr => printed s es'
      end
  | Print stderr text :: es' =>
      match s with
      | stdout => printed s es'
      | stderr => text :: printed s es'
      end
  | _ :: es' => printed s es'
  end.

(** The run ended in the trap. *)
Definition trapped {R} (r : option R) : bool :=
  match r with
  | None => true
  | Some _ => false
  end.



(** The objects for which the program calls the matching release
    function: all but the key file of the origin. *)
Definition released_properly : list Resource :=
  [the_repo_path; the_repo; the_remote_list; the_new_commit; the_sysroot;
   the_options; the_error].

(** An acquired object is handed exactly once to the function that
    gives it back. *)
Definition released_once (es : list Effect) (x : Resource) : bool :=
  negb (acquired x es) || (times_released x es =? 1).

(** The acquisitions, releases and stale reads of a trace. *)
Fixpoint bookkeeping (t : list Event) : list Effect :=
  match t with
  | [] => []
  | Did (Print _ _) :: t' => bookkeeping t'
  | Did e :: t' => e :: bookkeeping t'
  | _ :: t' => bookkeeping t'
  end.

(** The line the listing loop prints for the remote at index [j], the
    loop having started at [i]. *)
Definition remote_line (i : Z) (j : nat) (r : string) : Effect :=
  Print stdout ("Remote " +:+ pretty (i + Z.of_nat j + 1)%Z +:+ ": " +:+ r +:+ nl).

(** The first [m] characters of [s], [s] itself when it is shorter. *)
Fixpoint string_take (m : nat) (s : string) : string :=
  match m, s with
  | S m', String c s' => String c (string_take m' s')
  | _, _ => EmptyString
  end.

(** The remotes of a host after a run of [main]: the remote is added
    when the store opens and lists at least one remote, none of them
    being [remote_name]. *)
Definition remotes_after_main (opened : bool) (m : gmap string string)
  : gmap string string :=
  if opened then
    match listing m, m !! "linuxmint" with
    | Some _, None => <["linuxmint" := "https://updates.myserver.com/ostreerepo"]> m
    | _, _ => m
    end
  else m.

(** ** Reasoning about programs *)

Lemma calls_app (t u : list Event) : calls (t ++ u) = calls t ++ calls u.
Proof.
  induction t as [|[o r|e|f] t IH]; simpl; [done| |done|done].
  by rewrite IH.
Qed.

Lemma effects_app (t u : list Event) : effects (t ++ u) = effects t ++ effects u.
Proof.
  induction t as [|[o r|e|f] t IH]; simpl; [done|done| |done].
  by rewrite IH.
Qed.

Section Semantics.
Context {A B : Type}.

(** [run] of a sequence is the sequence of the runs, cut at a trap. *)

Lemma run_bind (w : World) (p : prog A) (f : A -> prog B) (s : wstate w) :
  run w (bind p f) s =
  match result (run w p s) with
  | Some a =>
      let r := run w (f a) (final (run w p s)) in
      {| trace := trace (run w p s) ++ trace r;
         result := result r; final := final r |}
  | None =>
      {| trace := trace (run w p s); result := None;
         final := final (run w p s) |}
  end.
Proof.
  revert s. induction p as [a|t|e k IH|o k IH]; intros s; simpl.
  - by destruct (run w (f a) s).
  - done.
  - rewrite IH. by destruct (result (run w k s)).
  - destruct (respond w o s) as [x s1]. rewrite IH.
    by destruct (result (run w (k x) s1)).
Qed.

(** What holds of every behaviour holds of the run against any world. *)
Lemma always_run (p : prog A) (Q : list Event -> option A -> Prop) :
  always p Q -> forall (w : World) (s : wstate w),
    Q (trace (run w p s)) (result (run w p s)).
Proof.
  revert Q. induction p as [a|t|e k IH|o k IH]; intros Q H w s; simpl in *.
  - done.
  - done.
  - by apply (IH _ H).
  - destruct (respond w o s) as [x s1]. by apply (IH x _ (H x)).
Qed.

Lemma always_mono (p : prog A) (Q Q' : list Event -> option A -> Prop) :
  (forall t r, Q t r -> Q' t r) -> always p Q -> always p Q'.
Proof.
  revert Q Q'. induction p as [a|t|e k IH|o k IH]; intros Q Q' HQ H; simpl in *.
  - by apply HQ.
  - by apply HQ.
  - eapply IH; [|exact H]. intros; by apply HQ.
  - intros x. eapply IH; [|exact (H x)]. intros; by apply HQ.
Qed.

(** Sequencing rule. *)
Lemma always_bind (p : prog A) (f : A -> prog B)
    (Q : list Event -> option B -> Prop) :
  always p (fun t r =>
    match r with
    | Some a => always (f a) (fun t' r' => Q (t ++ t') r')
    | None => Q t None
    end) ->
  always (bind p f) Q.
Proof.
  revert Q. induction p as [a|t|e k IH|o k IH]; intros Q H; simpl in *.
  - done.
  - done.
  - by apply IH.
  - intros x. by apply IH.
Qed.
End Semantics.

(** The listing loop only prints. *)
Lemma always_print_remotes (i : Z) (l : list string)
    (Q : list Event -> option unit -> Prop) :
  (forall t, quiet t -> Q t (Some tt)) -> always (print_remotes i l) Q.
Proof.
  revert i Q. induction l as [|r l IH]; intros i Q H; simpl.
  - apply H. constructor.
  - apply IH. intros t Ht. apply H. constructor; [by eexists|done].
Qed.

Lemma quiet_calls t : quiet t -> calls t = [].
Proof. induction 1 as [|e t [text ->] _ IH]; simpl; done. Qed.

Lemma quiet_existsb (f : Effect -> bool) (t : list Event) :
  quiet t -> (forall text, f (Print stdout text) = false) ->
  existsb f (effects t) = false.
Proof.
  intros Ht Hf. induction Ht as [|e t [text ->] _ IH]; simpl; [done|].
  by rewrite Hf, IH.
Qed.

(** A run without collaborator calls leaves the world where it was. *)
Lemma run_final_quiet {A} (w : World) (p : prog A) (s : wstate w) :
  calls (trace (run w p s)) = [] -> final (run w p s) = s.
Proof.
  revert s. induction p as [a|t|e k IH|o k IH]; intros s; simpl; try done.
  - apply IH.
  - by destruct (respond w o s).
Qed.

Lemma always_release_local {A} stack v f r (x : slot (option A)) :
  always (release_local stack v f r x) (effects_only tt).
Proof. destruct x as [|[]]; simpl; try done. by destruct (stack v). Qed.

Lemma always_seq_effects {A B} (p : prog A) (q : prog B) (a : A) (b : B) :
  always p (effects_only a) -> always q (effects_only b) ->
  always (p ;; q) (effects_only b).
Proof.
  intros Hp Hq. apply always_bind. eapply always_mono; [|exact Hp].
  intros t r [Ht ->]. eapply always_mono; [|exact Hq].
  intros t' r' [Ht' ->]. split; [|done]. by rewrite calls_app, Ht, Ht'.
Qed.

(** [cleanup] makes no collaborator call and returns [status]. *)
Lemma always_cleanup stack F : always (cleanup stack F) (effects_only (status F)).
Proof.
  unfold cleanup.
  repeat (eapply always_seq_effects;
          [first [apply always_release_local | by case_match] |]).
  done.
Qed.

Lemma cleanup_run (w : World) (stack : Var -> bool) (F : Frame) (s : wstate w) :
  calls (trace (run w (cleanup stack F) s)) = []
  /\ result (run w (cleanup stack F) s) = Some (status F)
  /\ final (run w (cleanup stack F) s) = s.
Proof.
  destruct (always_run _ _ (always_cleanup stack F) w s) as [Hc Hr].
  split_and!; [done|done|by apply run_final_quiet].
Qed.

(** [main] adds to [main_body] effects only: the calls, the final world
    state and the status are those with which control reaches [cleanup],
    whatever the stale stack contents. *)
Lemma main_run (w : World) (stack : Var -> bool) (s : wstate w) :
  let b := run w main_body s in
  let r := run w (main stack) s in
  calls (trace r) = calls (trace b)
  /\ result r = status <$> result b
  /\ final r = final b.
Proof.
  cbv zeta. unfold main.
  change (run w (F ← main_body; cleanup stack F) s)
    with (run w (bind main_body (cleanup stack)) s).
  rewrite run_bind.
  destruct (result (run w main_body s)) as [F|];
    cbn [trace result final fmap option_fmap option_map]; [|done].
  destruct (cleanup_run w stack F (final (run w main_body s))) as (Hc & Hr & Hf).
  rewrite calls_app, Hc, app_nil_r. done.
Qed.

(** Symbolic execution of the source along every answer of the world. *)
Ltac unfold_source :=
  unfold main, main_body, registry_step, ensure_remote, open_repo, list_remote,
    add_remote, pull_remote, resolve_rev, load_deployments, create_origin,
    deploy_tree, fail_to_cleanup, error_message, set_by, returned,
    cleanup, release_local,
    g_print, g_printerr, acquire, release, emit, call,
    mbind, prog_bind, mret, prog_ret.

Ltac exec_step :=
  match goal with
  | |- forall _, _ => intros ?
  | |- always (bind (print_remotes _ _) _) _ =>
      apply always_bind, always_print_remotes; intros ? ?
  | |- always (bind (bind _ _) _) _ => apply always_bind
  | |- always _ _ => progress (cbn -[String.append pretty])
  | |- always ?p _ =>
      match p with
      | context [is_ok ?x] => is_var x; destruct x
      | context [match ?x with _ => _ end] => is_var x; destruct x
      | context [remote_exists ?l ?n] => destruct (remote_exists l n) eqn:?
      | context [?f v_remote_list] => is_var f; destruct (f v_remote_list) eqn:?
      | context [?f v_new_commit] => is_var f; destruct (f v_new_commit) eqn:?
      | context [?f v_sysroot] => is_var f; destruct (f v_sysroot) eqn:?
      | context [?f v_origin] => is_var f; destruct (f v_origin) eqn:?
      end
  end.

Ltac forget_prints :=
  repeat match goal with
  | H : quiet ?t |- _ =>
      let E := fresh in
      pose proof (quiet_calls t H) as E; revert H;
      rewrite ?calls_app in *; rewrite ?E in *; clear E
  end;
  intros.

Ltac exec := unfold_source; repeat exec_step.

(** Membership in a trace given as a concatenation of explicit lists. *)
Ltac find_in :=
  lazymatch goal with
  | |- _ ∈ _ ++ _ => apply elem_of_app; first [left; find_in | right; find_in]
  | |- _ ∈ _ :: _ => apply elem_of_cons; first [left; reflexivity | right; find_in]
  end.

(** Prints apart: the bookkeeping of a trace. *)
Lemma bookkeeping_app (t u : list Event) :
  bookkeeping (t ++ u) = bookkeeping t ++ bookkeeping u.
Proof.
  induction t as [|[o r|[]|f] t IH]; simpl; try done; by rewrite IH.
Qed.

Lemma quiet_bookkeeping (t : list Event) : quiet t -> bookkeeping t = [].
Proof. induction 1 as [|e t [text ->] _ IH]; simpl; done. Qed.

Lemma acquired_bookkeeping (x : Resource) (t : list Event) :
  acquired x (effects t) = acquired x (bookkeeping t).
Proof.
  unfold acquired.
  induction t as [|[o r|[]|f] t IH]; simpl; try done; by rewrite IH.
Qed.

Lemma times_released_bookkeeping (x : Resource) (t : list Event) :
  times_released x (effects t) = times_released x (bookkeeping t).
Proof.
  induction t as [|[o r|[| |f [y|]|]|f] t IH]; simpl; try done; by rewrite IH.
Qed.

Lemma released_once_bookkeeping (t : list Event) (l : list Resource) :
  forallb (released_once (effects t)) l
  = forallb (released_once (bookkeeping t)) l.
Proof.
  induction l as [|x l IH]; simpl; [done|].
  unfold released_once at 1 3.
  by rewrite IH, acquired_bookkeeping, times_released_bookkeeping.
Qed.

Ltac forget_prints_in_bookkeeping :=
  rewrite ?bookkeeping_app;
  repeat match goal with
  | H : quiet _ |- _ => rewrite ?(quiet_bookkeeping _ H)
  end.

Lemma releases_junk_bookkeeping (t : list Event) :
  releases_junk (effects t) = releases_junk (bookkeeping t).
Proof.
  unfold releases_junk.
  induction t as [|[o r|[]|f] t IH]; simpl; try done; by rewrite IH.
Qed.

Lemma exit_after_bookkeeping (t : list Event) (r : option Z) :
  exit_after (effects t) r = exit_after (bookkeeping t) r.
Proof. unfold exit_after. by rewrite releases_junk_bookkeeping. Qed.

(** An ordered occurrence in a trace that is a concatenation of explicit
    lists and of the lines of the listing loop. *)
Ltac find_sub :=
  rewrite <- ?app_assoc; cbn [app];
  lazymatch goal with
  | |- [] `sublist_of` _ => apply sublist_nil_l
  | |- _ `sublist_of` _ :: _ =>
      first [apply sublist_skip; find_sub | apply sublist_cons; find_sub]
  | |- _ `sublist_of` _ ++ _ => apply sublist_inserts_l; find_sub
  end.

(** ** Two runs, for orientation *)

Example run_all_good :
  calls (trace (run (scripted all_good) (main zeroed_stack) tt))
  = [(ostree_repo_open {| repo_path := "/sysroot/ostree/repo" |},
      RStatus (GOk tt));
     (ostree_repo_remote_list, RStrv (Some ["flathub"]));
     (ostree_repo_remote_add "linuxmint"
        "https://updates.myserver.com/ostreerepo", RStatus (GOk tt));
     (ostree_repo_pull_with_options "linuxmint" ["myOS/amd64/stable"],
      RStatus (GOk tt));
     (ostree_repo_resolve_rev "myOS/amd64/stable" false, RRev (GOk "c0ffee"));
     (ostree_sysroot_load, RStatus (GOk tt));
     (ostree_sysroot_origin_new_from_refspec "linuxmi", RKeyFile (Some 1));
     (ostree_sysroot_stage_tree_with_options "myos" "c0ffee" 1,
      RStatus (GOk tt));
     (ostree_sysroot_cleanup, RStatus (GOk tt))]
  /\ result (run (scripted all_good) (main zeroed_stack) tt)
     = Some EXIT_SUCCESS.
Proof. split; by vm_compute. Qed.

Example run_pull_fails :
  calls (trace (run (host pull_fails) (main zeroed_stack) used_host))
  = [(ostree_repo_open {| repo_path := "/sysroot/ostree/repo" |},
      RStatus (GOk tt));
     (ostree_repo_remote_list, RStrv (Some ["flathub"]));
     (ostree_repo_remote_add "linuxmint"
        "https://updates.myserver.com/ostreerepo", RStatus (GOk tt));
     (ostree_repo_pull_with_options "linuxmint" ["myOS/amd64/stable"],
      RStatus (GFail (io_error "While fetching: connection timed out")))]
  /\ result (run (host pull_fails) (main zeroed_stack) used_host)
     = Some EXIT_FAILURE
  /\ remotes (final (run (host pull_fails) (main zeroed_stack) used_host))
       !! "linuxmint"
     = Some "https://updates.myserver.com/ostreerepo".
Proof. split_and!; by vm_compute. Qed.

(** A state component that only the boot-mutating calls may change is
    the same after a run that made none of them. *)
Lemma run_frame {A B} (w : World) (boot : wstate w -> B) (p : prog A) :
  (forall o s, mutates_boot o = false -> boot (respond w o s).2 = boot s) ->
  forall s,
    existsb (fun c => mutates_boot c.1) (calls (trace (run w p s))) = false ->
    boot (final (run w p s)) = boot s.
Proof.
  intros Hframe.
  induction p as [a|t|e k IH|o k IH]; intros s; simpl; try done.
  - apply IH.
  - specialize (Hframe o s). destruct (respond w o s) as [x s1]; simpl in *.
    intros [Ho Hrest]%orb_false_elim.
    rewrite (IH x s1 Hrest). by apply Hframe.
Qed.

Lemma host_frame (k : Script) (o : Op) (h : Host) :
  mutates_boot o = false ->
  deployments (respond (host k) o h).2 = deployments h.
Proof.
  destruct o; simpl; try done.
  by destruct (remotes h !! name).
Qed.

(** ** The transaction *)

(** *** Failure before staging *)

(** C1.  Whenever a step before staging fails (opening the store, listing
    or adding the remote, pulling, resolving, loading the deployments,
    building the origin), the run makes neither the staging call nor the
    cleanup call; hence every part of the world's state that only those
    two calls can change, the deployments in particular, is at the end
    what it was at the start. *)
Theorem early_failure_leaves_boot_untouched
    (w : World) (s : wstate w) (stack : Var -> bool) :
  existsb fails_before_stage (calls (trace (run w (main stack) s))) = true ->
  existsb (fun c => mutates_boot c.1) (calls (trace (run w (main stack) s))) = false
  /\ forall (B : Type) (boot : wstate w -> B),
       (forall o s', mutates_boot o = false -> boot (respond w o s').2 = boot s') ->
       boot (final (run w (main stack) s)) = boot s.
Proof.
  intros Hfail.
  assert (existsb (fun c => mutates_boot c.1)
            (calls (trace (run w (main stack) s))) = false) as Hnone.
  { revert Hfail. revert w s.
    apply (always_run (main stack) (fun t _ =>
      existsb fails_before_stage (calls t) = true ->
      existsb (fun c => mutates_boot c.1) (calls t) = false)).
    exec; forget_prints; cbn in *; done. }
  split; [exact Hnone|].
  intros B boot Hframe. by apply run_frame.
Qed.

Lemma early_failure_leaves_boot_untouched_witness :
  existsb fails_before_stage
    (calls (trace (run (host pull_fails) (main dirty_stack) used_host))) = true
  /\ existsb (fun c => mutates_boot c.1)
       (calls (trace (run (host pull_fails) (main dirty_stack) used_host)))
     = false
  /\ deployments (final (run (host pull_fails) (main dirty_stack) used_host))
     = deployments used_host.
Proof.
  split; [vm_compute; reflexivity|].
  destruct (early_failure_leaves_boot_untouched
              (host pull_fails) used_host dirty_stack) as [Hcalls Hboot].
  - vm_compute. reflexivity.
  - split; [exact Hcalls|].
    apply (Hboot _ deployments). intros o h. apply host_frame.
Defined.

(** *** Order of the steps *)

(** C5.  In every run the collaborator calls walk the stages
    open, list and register (ensure-remote), pull, resolve,
    load-deployments, build-origin, stage, prune in that order, each call
    being made only when the previous one succeeded: the walk ends in
    [Pruned] exactly for the runs that exit with success and in [Failed]
    at the first failing call otherwise.  No step is left out: within
    ensure-remote the registration call is omitted only when the listing
    holds the remote.  In particular no resolve is made before a
    successful pull and no staging before a successful resolve. *)
Theorem steps_are_ordered (w : World) (s : wstate w) (stack : Var -> bool) :
  follows Idle (calls (trace (run w (main stack) s)))
    = Some (stage_of_exit (result (run w (main stack) s)))
  /\ registers_when_unlisted "linuxmint"
       (calls (trace (run w (main stack) s))) = true
  /\ only_after is_pull is_resolve false
       (calls (trace (run w (main stack) s))) = true
  /\ only_after is_resolve is_stage false
       (calls (trace (run w (main stack) s))) = true.
Proof.
  revert w s.
  apply (always_run (main stack) (fun t r =>
    follows Idle (calls t) = Some (stage_of_exit r)
    /\ registers_when_unlisted "linuxmint" (calls t) = true
    /\ only_after is_pull is_resolve false (calls t) = true
    /\ only_after is_resolve is_stage false (calls t) = true)).
  exec; forget_prints; unfold registers_when_unlisted; cbn;
    repeat match goal with H : remote_exists _ _ = _ |- _ => rewrite H end;
    done.
Qed.

(** *** No external input *)

(** The calls of a run, their arguments and the state they leave the
    world in depend neither on the argument vector, nor on the
    environment, nor on the stale contents of the stack; and two runs
    end alike unless one of them has handed a stale pointer to a release
    function. *)
Lemma calls_ignore_the_stack
    (w : World) (s : wstate w)
    (argv envp argv' envp' : list string) (stack stack' : Var -> bool) :
  calls (trace (run w (start argv envp stack) s))
    = calls (trace (run w (start argv' envp' stack') s))
  /\ final (run w (start argv envp stack) s)
     = final (run w (start argv' envp' stack') s)
  /\ forallb fixed_arguments
       (calls (trace (run w (start argv envp stack) s))).*1 = true
  /\ (exit_of (run w (start argv envp stack) s) = Undetermined
      \/ exit_of (run w (start argv' envp' stack') s) = Undetermined
      \/ exit_of (run w (start argv envp stack) s)
         = exit_of (run w (start argv' envp' stack') s)).
Proof.
  unfold start.
  destruct (main_run w stack s) as (Hc & Hr & Hf).
  destruct (main_run w stack' s) as (Hc' & Hr' & Hf').
  split_and!.
  - by rewrite Hc, Hc'.
  - by rewrite Hf, Hf'.
  - clear Hc Hr Hf Hc' Hr' Hf'. revert w s.
    apply (always_run (main stack) (fun t _ =>
      forallb fixed_arguments (calls t).*1 = true)).
    exec; forget_prints; cbn; done.
  - unfold exit_of, exit_after. rewrite Hr, Hr'.
    destruct (releases_junk _); [by left|].
    destruct (releases_junk _); [by right; left|].
    by right; right.
Qed.

(** C10 at a world in which the store cannot be opened.  Two runs make
    the same collaborator call, and end differently according to the
    stale contents of the stack: where the four locals declared after
    the jump happen to read as [NULL], [main] returns [EXIT_FAILURE];
    where they do not, [cleanup] hands them to [g_strfreev], [g_free]
    and [g_object_unref], and the exit is no longer determined by the
    program. *)
Theorem exit_depends_on_stale_stack :
  calls (trace (run (scripted open_fails) (start [] [] zeroed_stack) tt))
    = calls (trace (run (scripted open_fails) (start [] [] dirty_stack) tt))
  /\ exit_of (run (scripted open_fails) (start [] [] zeroed_stack) tt)
     = Returned EXIT_FAILURE
  /\ exit_of (run (scripted open_fails) (start [] [] dirty_stack) tt)
     = Undetermined
  /\ Release g_strfreev (Junk v_remote_list)
     ∈ effects (trace (run (scripted open_fails) (start [] [] dirty_stack) tt))
  /\ releases_junk
       (effects (trace (run (scripted open_fails) (start [] [] zeroed_stack) tt)))
     = false.
Proof.
  split_and!; try by vm_compute.
  apply list_elem_of_In. vm_compute. intuition reflexivity.
Qed.

(** *** A failed prune *)

(** C2, as the program has it.  When staging succeeds and the cleanup
    after it fails, the run has by then reported the staged commit on
    standard output: in the trace the staging call, the line announcing
    the commit, the failed cleanup call, its report on standard error
    with the collaborator's message, and "Update failed" come in this
    order, "Update failed" being the last event of the run and the
    failed cleanup its last collaborator call, so nothing undoes the
    staging.  [main] returns the failure status, and no stale pointer is
    released on this path. *)
Theorem failed_prune_fails_the_run
    (w : World) (s : wstate w) (stack : Var -> bool) :
  staged_but_not_pruned (calls (trace (run w (main stack) s))) = true ->
  result (run w (main stack) s) = Some EXIT_FAILURE
  /\ exit_of (run w (main stack) s) = Returned EXIT_FAILURE
  /\ exists commit keyfile e,
       [Called (ostree_sysroot_stage_tree_with_options "myos" commit keyfile)
          (RStatus (GOk tt));
        Did (Print stdout ("Deployed new commit " +:+ commit
                           +:+ ". It will boot on next restart." +:+ nl));
        Called ostree_sysroot_cleanup (RStatus (GFail e));
        Did (Print stderr ("OSTree cleanup failed: " +:+ message e +:+ nl));
        Did (Print stderr ("Update failed" +:+ nl))]
       `sublist_of` trace (run w (main stack) s)
       /\ last (calls (trace (run w (main stack) s)))
          = Some (ostree_sysroot_cleanup, RStatus (GFail e))
       /\ last (trace (run w (main stack) s))
          = Some (Did (Print stderr ("Update failed" +:+ nl))).
Proof.
  unfold exit_of. rewrite exit_after_bookkeeping. revert w s.
  apply (always_run (main stack) (fun t r =>
    staged_but_not_pruned (calls t) = true ->
    r = Some EXIT_FAILURE
    /\ exit_after (bookkeeping t) r = Returned EXIT_FAILURE
    /\ exists commit keyfile e,
         [Called (ostree_sysroot_stage_tree_with_options "myos" commit keyfile)
            (RStatus (GOk tt));
          Did (Print stdout ("Deployed new commit " +:+ commit
                             +:+ ". It will boot on next restart." +:+ nl));
          Called ostree_sysroot_cleanup (RStatus (GFail e));
          Did (Print stderr ("OSTree cleanup failed: " +:+ message e +:+ nl));
          Did (Print stderr ("Update failed" +:+ nl))]
         `sublist_of` t
         /\ last (calls t) = Some (ostree_sysroot_cleanup, RStatus (GFail e))
         /\ last t = Some (Did (Print stderr ("Update failed" +:+ nl))))).
  exec; forget_prints; cbn in *; try done.
  all: repeat match goal with u : unit |- _ => destruct u end.
  all: split; [done|]; split;
    [ forget_prints_in_bookkeeping; by vm_compute |].
  all: do 3 eexists; split_and!;
    [ find_sub
    | forget_prints; by cbn
    | rewrite ?last_cons, ?last_app; by cbn ].
Qed.

Lemma failed_prune_fails_the_run_witness :
  staged_but_not_pruned
    (calls (trace (run (scripted prune_fails) (main zeroed_stack) tt))) = true
  /\ result (run (scripted prune_fails) (main zeroed_stack) tt)
     = Some EXIT_FAILURE.
Proof.
  split; [vm_compute; reflexivity|].
  apply (failed_prune_fails_the_run (scripted prune_fails) tt zeroed_stack).
  vm_compute. reflexivity.
Defined.

(** C2 as stated fails: with a world in which the cleanup is refused
    after a successful staging, the run exits with [EXIT_FAILURE]. *)
Lemma failed_prune_is_fatal :
  staged_but_not_pruned
    (calls (trace (run (scripted prune_fails) (main zeroed_stack) tt))) = true
  /\ result (run (scripted prune_fails) (main zeroed_stack) tt)
     = Some EXIT_FAILURE
  /\ ~ prune_failure_is_only_a_warning.
Proof.
  split_and!; [by vm_compute | by vm_compute |].
  intros claim.
  specialize (claim (scripted prune_fails) tt zeroed_stack).
  vm_compute in claim. by specialize (claim eq_refl).
Qed.

(** *** Pulling *)

(** C4, as the program has it.  [pull_remote] hands every set of refs,
    the empty one included, to the transfer primitive in exactly one call
    and returns that call's outcome; it has no error of its own. *)
Theorem pull_forwards_any_refs
    (w : World) (s : wstate w) (remote_name : string) (refs : list string)
    (error : option GError) :
  calls (trace (run w (pull_remote remote_name refs error) s))
    = [(ostree_repo_pull_with_options remote_name refs,
        RStatus (respond w (ostree_repo_pull_with_options remote_name refs) s).1)]
  /\ result (run w (pull_remote remote_name refs error) s)
     = Some (returned
               (respond w (ostree_repo_pull_with_options remote_name refs) s).1
               error).
Proof.
  unfold pull_remote, set_by, acquire, release, emit, call; simpl.
  destruct (respond w _ s) as [[[]|e] s1]; simpl; done.
Qed.

(** C4 as stated fails: a pull of no refs reaches the transfer primitive,
    and succeeds when the primitive does. *)
Lemma empty_pull_reaches_the_remote :
  calls (trace (run (scripted all_good) (pull_remote "acme" [] None) tt))
    = [(ostree_repo_pull_with_options "acme" [], RStatus (GOk tt))]
  /\ result (run (scripted all_good) (pull_remote "acme" [] None) tt)
     = Some (Some tt, None)
  /\ ~ empty_pull_is_refused.
Proof.
  split_and!; [by vm_compute | by vm_compute |].
  intros claim.
  destruct (claim (scripted all_good) tt "acme" None) as [Hcalls _].
  vm_compute in Hcalls. discriminate Hcalls.
Qed.

(** *** The origin *)

Lemma length_substring_0 (m : nat) (s : string) :
  m <= String.length s -> String.length (String.substring 0 m s) = m.
Proof.
  revert s. induction m as [|m IH]; intros [|c s] H; simpl in *; try lia.
  rewrite IH; lia.
Qed.

(** [g_snprintf] cuts every text that does not fit: whatever the pointer
    size [n], a formatted refspec of [n] or more characters comes out
    [n - 1] characters long. *)
Lemma snprintf_cut (old : string) (n : nat) (text : string) :
  0 < n <= String.length text ->
  String.length (g_snprintf old n text) = n - 1
  /\ g_snprintf old n text <> text.
Proof.
  intros [Hpos Hlen]. destruct n as [|m]; [lia|]. simpl.
  assert (String.length (String.substring 0 m text) = m) as Hcut
    by (apply length_substring_0; lia).
  split; [lia|]. intros Heq. rewrite Heq in Hcut. lia.
Qed.

(** C3 at the remote and ref of the specification's example: the refspec
    [create_origin] writes and hands to the boot environment is the first
    seven characters of "acme:stable/amd64", not the whole of it; for the
    remote and ref of [main] it is "linuxmi". *)
Theorem create_origin_truncates_the_refspec :
  refspec_of "" "acme" "stable/amd64" = "acme:st"
  /\ refspec_of "" "acme" "stable/amd64" <> "acme" +:+ ":" +:+ "stable/amd64"
  /\ calls (trace (run (scripted all_good)
                     (create_origin "" "acme" "stable/amd64") tt))
     = [(ostree_sysroot_origin_new_from_refspec "acme:st", RKeyFile (Some 1))]
  /\ refspec_of "" "linuxmint" "myOS/amd64/stable" = "linuxmi".
Proof. split_and!; by vm_compute. Qed.

(** The outcome of [create_origin] is the boot environment's answer: it
    reports failure exactly when that answer is [NULL]. *)
Lemma create_origin_result (w : World) (s : wstate w)
    (buf remote_name ref : string) :
  result (run w (create_origin buf remote_name ref) s)
  = Some (bool_decide (is_Some
            (respond w (ostree_sysroot_origin_new_from_refspec
                          (refspec_of buf remote_name ref)) s).1),
          refspec_of buf remote_name ref,
          (respond w (ostree_sysroot_origin_new_from_refspec
                        (refspec_of buf remote_name ref)) s).1).
Proof.
  unfold create_origin, acquire, emit, call; simpl.
  destruct (respond w _ s) as [[k|] s1]; simpl; done.
Qed.

(** *** Reported errors *)

Lemma null_origin_traps (stack : Var -> bool) :
  always (main stack) (fun t r =>
    existsb (fun c => is_build_origin c.1 && negb (succeeded c.2)) (calls t)
      = true ->
    r = None /\ last t = Some (Trapped NullDereference)
    /\ acquired the_error (effects t) = false).
Proof.
  exec; forget_prints; cbn in *; try done.
  all: split; [done|]; split;
    [ rewrite last_cons, last_app; by cbn
    | unfold acquired; rewrite ?effects_app, ?existsb_app;
      match goal with H : quiet _ |- _ => by rewrite (quiet_existsb _ _ H) end ].
Qed.

(** C9 at the failing step it singles out: when the boot environment
    hands back [NULL] for the origin, no error has been set by any step,
    and the report of the failure dereferences the [NULL] [error]: the
    run ends in a trap, before any message is printed for the step. *)
Theorem origin_failure_reads_null_error :
  result (run (scripted origin_is_null) (main zeroed_stack) tt) = None
  /\ last (trace (run (scripted origin_is_null) (main zeroed_stack) tt))
     = Some (Trapped NullDereference)
  /\ acquired the_error
       (effects (trace (run (scripted origin_is_null) (main zeroed_stack) tt)))
     = false
  /\ last (calls (trace (run (scripted origin_is_null) (main zeroed_stack) tt)))
     = Some (ostree_sysroot_origin_new_from_refspec "linuxmi", RKeyFile None).
Proof. split_and!; by vm_compute. Qed.

(** On the steps that do take a [GError **], the message printed is the
    one the failing call stored. *)
Lemma stored_errors_are_reported (stack : Var -> bool) :
  always (main stack) (fun t _ =>
    forall o r e, (o, r) ∈ calls t -> stored_error r = Some e ->
      report o e ∈ effects t).
Proof.
  exec; forget_prints; cbn in *.
  all: repeat match goal with
       | H : _ ∈ [] |- _ => by apply elem_of_nil in H
       | H : _ ∈ _ :: _ |- _ => apply elem_of_cons in H; destruct H as [H|H]
       | H : (_, _) = (_, _) |- _ => injection H as -> ->
       end.
  all: try discriminate.
  all: match goal with H : stored_error _ = Some _ |- _ =>
         cbn in H; injection H as <- end.
  all: rewrite ?effects_app; cbn; find_in.
Qed.

(** *** Listing the remotes *)

(** [list_remote] turns the [NULL] of the library into a failure, and so
    does [main]: the run stops after the listing, with the failure status
    and without the registration call. *)
Lemma null_listing_aborts (stack : Var -> bool) :
  always (main stack) (fun t r =>
    (ostree_repo_remote_list, RStrv None) ∈ calls t ->
    r = Some EXIT_FAILURE
    /\ last (calls t) = Some (ostree_repo_remote_list, RStrv None)
    /\ Print stderr ("Failed to list remotes: Failed to list remotes" +:+ nl)
       ∈ effects t).
Proof.
  exec; forget_prints; cbn in *.
  all: repeat match goal with
       | H : _ ∈ [] |- _ => by apply elem_of_nil in H
       | H : _ ∈ _ :: _ |- _ => apply elem_of_cons in H; destruct H as [H|H]
       end; try discriminate.
  all: split_and!; [done | done | find_in].
Qed.

(** C6 on a store that can be read and has no remote configured: the
    library's listing is [NULL], [list_remote] reports it as the failure
    "Failed to list remotes", and the run ends with the failure status;
    the remote is not added. *)
Theorem empty_store_is_reported_as_failure :
  listing (remotes fresh_host) = None
  /\ calls (trace (run (host all_good) (main zeroed_stack) fresh_host))
     = [(ostree_repo_open {| repo_path := "/sysroot/ostree/repo" |},
         RStatus (GOk tt));
        (ostree_repo_remote_list, RStrv None)]
  /\ result (run (host all_good) (main zeroed_stack) fresh_host)
     = Some EXIT_FAILURE
  /\ Print stderr ("Failed to list remotes: Failed to list remotes" +:+ nl)
     ∈ effects (trace (run (host all_good) (main zeroed_stack) fresh_host))
  /\ remotes (final (run (host all_good) (main zeroed_stack) fresh_host))
       !! "linuxmint" = None.
Proof.
  split_and!; try by vm_compute.
  apply list_elem_of_In. vm_compute. intuition reflexivity.
Qed.

(** *** Registering the remote *)

Lemma compare_same (a : string) : String.compare a a = Eq.
Proof.
  pose proof (String.compare_antisym a a) as H.
  destruct (String.compare a a); simpl in H; congruence.
Qed.

Lemma g_strcmp0_eq (a b : string) : (g_strcmp0 a b =? 0)%Z = true <-> a = b.
Proof.
  unfold g_strcmp0. split.
  - destruct (String.compare a b) eqn:Hc; try done.
    intros _. by apply String.compare_eq_iff.
  - intros ->. by rewrite compare_same.
Qed.

Lemma remote_exists_spec (l : list string) (name : string) :
  remote_exists l name = true <-> name ∈ l.
Proof.
  induction l as [|r l IH]; simpl.
  - split; [done|]. by intros ?%elem_of_nil.
  - rewrite elem_of_cons.
    destruct (g_strcmp0 r name =? 0)%Z eqn:Hc.
    + apply g_strcmp0_eq in Hc. split; [by left|done].
    + rewrite IH. split; [by right|].
      intros [Heq|H]; [|done].
      apply eq_sym, g_strcmp0_eq in Heq. congruence.
Qed.

Lemma listing_Some (m : gmap string string) (names : list string) :
  listing m = Some names ->
  NoDup names /\ forall name, name ∈ names <-> is_Some (m !! name).
Proof.
  unfold listing. intros H.
  assert (names = elements (dom m)) as ->
    by (destruct (elements (dom m)); congruence).
  split; [apply NoDup_elements|].
  intros name. by rewrite elem_of_elements, elem_of_dom.
Qed.

Lemma listing_None (m : gmap string string) : listing m = None <-> m = ∅.
Proof.
  unfold listing. rewrite <- dom_empty_iff_L.
  destruct (elements (dom m)) as [|n l] eqn:Hl.
  - split; [|done]. intros _. by apply leibniz_equiv, elements_empty_iff.
  - split; [done|]. intros Hm. by rewrite Hm, elements_empty in Hl.
Qed.

Lemma print_remotes_run (w : World) (s : wstate w) (i : Z) (l : list string) :
  calls (trace (run w (print_remotes i l) s)) = []
  /\ result (run w (print_remotes i l) s) = Some tt
  /\ final (run w (print_remotes i l) s) = s.
Proof.
  assert (calls (trace (run w (print_remotes i l) s)) = []
          /\ result (run w (print_remotes i l) s) = Some tt) as [Hc Hr].
  { apply (always_run (print_remotes i l)
             (fun t r => calls t = [] /\ r = Some tt)).
    apply always_print_remotes. intros t Ht. by rewrite (quiet_calls t Ht). }
  split_and!; [done | done | by apply run_final_quiet].
Qed.

(** The registry phase on a host. *)
Lemma registry_step_on_host (k : Script) (h : Host) (name url : string)
    (error : option GError) :
  let r := run (host k) (registry_step name url error) h in
  match listing (remotes h) with
  | None =>
      result r = Some (None, None,
                       g_set_error error (io_error "Failed to list remotes"))
      /\ final r = h
      /\ existsb (fun c => is_remote_add c.1) (calls (trace r)) = false
  | Some names =>
      match remotes h !! name with
      | Some _ =>
          result r = Some (Some names, Some tt, error)
          /\ final r = h
          /\ existsb (fun c => is_remote_add c.1) (calls (trace r)) = false
      | None =>
          result r = Some (Some names, Some tt, error)
          /\ final r = {| remotes := <[name := url]> (remotes h);
                          deployments := deployments h |}
          /\ existsb (fun c => is_remote_add c.1) (calls (trace r)) = true
      end
  end.
Proof.
  cbv zeta. unfold registry_step, list_remote, call, acquire, emit, mbind, prog_bind,
    mret, prog_ret.
  cbn -[print_remotes ensure_remote].
  destruct (listing (remotes h)) as [names|] eqn:Hlist;
    cbn -[print_remotes ensure_remote]; [|by destruct error].
  rewrite run_bind.
  destruct (print_remotes_run (host k) h 0 names) as (Hc & Hr & Hf).
  destruct (run (host k) (print_remotes 0 names) h) as [t r f].
  cbn in Hc, Hr, Hf. subst r f.
  cbn -[ensure_remote]. rewrite calls_app, Hc. cbn -[ensure_remote].
  destruct (listing_Some _ _ Hlist) as [_ Hin].
  unfold ensure_remote.
  destruct (remotes h !! name) as [u|] eqn:Hname.
  - rewrite (proj2 (remote_exists_spec names name)) by (apply Hin; eauto).
    by cbn.
  - destruct (remote_exists names name) eqn:Hex.
    { apply remote_exists_spec, Hin in Hex. rewrite Hname in Hex.
      by destruct Hex. }
    unfold add_remote, call, set_by, returned, mbind, prog_bind, mret, prog_ret.
    cbn. rewrite Hname. by cbn.
Qed.

(** Where the store already has a remote of that name, the registry phase
    succeeds without the registration call and leaves the store, the URL
    of that remote included, as it was, whatever URL is supplied. *)
Lemma registry_keeps_configured_remote (k : Script) (h : Host)
    (name url url0 : string) (error : option GError) :
  remotes h !! name = Some url0 ->
  (exists names,
     result (run (host k) (registry_step name url error) h)
     = Some (Some names, Some tt, error))
  /\ existsb (fun c => is_remote_add c.1)
       (calls (trace (run (host k) (registry_step name url error) h))) = false
  /\ final (run (host k) (registry_step name url error) h) = h.
Proof.
  intros Hname.
  pose proof (registry_step_on_host k h name url error) as H. cbv zeta in H.
  destruct (listing (remotes h)) as [names|] eqn:Hlist.
  - rewrite Hname in H. destruct H as (Hr & Hf & Hc). eauto.
  - apply listing_None in Hlist. rewrite Hlist in Hname. done.
Qed.

(** On a store that lists at least one remote, running the registry phase
    twice succeeds twice, the second run changes nothing, and the listing
    then holds the name exactly once. *)
Lemma registry_twice_on_used_store (k : Script) (h : Host) (name url : string)
    (error : option GError) :
  remotes h <> ∅ ->
  let r1 := run (host k) (registry_step name url error) h in
  let r2 := run (host k) (registry_step name url error) (final r1) in
  (exists names, result r1 = Some (Some names, Some tt, error))
  /\ (exists names,
        result r2 = Some (Some names, Some tt, error)
        /\ NoDup names /\ name ∈ names)
  /\ final r2 = final r1
  /\ remotes (final r1) !! name
     = Some (default url (remotes h !! name)).
Proof.
  intros Hne. cbv zeta.
  pose proof (registry_step_on_host k h name url error) as H1. cbv zeta in H1.
  destruct (listing (remotes h)) as [names|] eqn:Hlist;
    [|by apply listing_None in Hlist].
  set (h1 := final (run (host k) (registry_step name url error) h)) in *.
  assert (remotes h1 !! name = Some (default url (remotes h !! name))) as Hh1.
  { destruct (remotes h !! name) as [u|] eqn:Hname;
      destruct H1 as (_ & -> & _); simpl; [done|].
    apply lookup_insert_eq. }
  pose proof (registry_step_on_host k h1 name url error) as H2. cbv zeta in H2.
  destruct (listing (remotes h1)) as [names1|] eqn:Hlist1.
  - rewrite Hh1 in H2. destruct H2 as (Hr2 & Hf2 & _).
    destruct (listing_Some _ _ Hlist1) as [Hnd Hin].
    split_and!.
    + destruct (remotes h !! name); destruct H1 as (-> & _); eauto.
    + exists names1. split_and!; [done | done | apply Hin; eauto].
    + done.
    + done.
  - apply listing_None in Hlist1. rewrite Hlist1 in Hh1. done.
Qed.

(** On a store with no remote yet the registry phase of [main] (lines
    136-174) fails at the listing, each time it is run: the registration
    block is not reached, and no remote is added. *)
Lemma registry_fails_on_empty_store :
  result (run (host all_good)
            (registry_step "acme" "https://acme.example/repo" None) fresh_host)
  = Some (None, None, Some (io_error "Failed to list remotes"))
  /\ result (run (host all_good)
               (registry_step "acme" "https://acme.example/repo" None)
               (final (run (host all_good)
                         (registry_step "acme" "https://acme.example/repo" None)
                         fresh_host)))
     = Some (None, None, Some (io_error "Failed to list remotes"))
  /\ remotes (final (run (host all_good)
               (registry_step "acme" "https://acme.example/repo" None)
               (final (run (host all_good)
                         (registry_step "acme" "https://acme.example/repo" None)
                         fresh_host))))
       !! "acme" = None.
Proof. split_and!; by vm_compute. Qed.

(** *** Releasing what was acquired *)

(** Control reaches [cleanup] past the initialisers of the locals declared
    after the failing step; [cleanup] tests each of them nevertheless. *)
Lemma skipped_initialisers_are_read (stack : Var -> bool) :
  always (main stack) (fun t r =>
    r <> None ->
    existsb (fun c => is_build_origin c.1) (calls t) = false ->
    ReadIndeterminate v_origin ∈ effects t).
Proof.
  exec; forget_prints; cbn in *; try done.
  all: rewrite ?effects_app; cbn; find_in.
Qed.

(** C8 on the first exit path: when the store cannot be opened, [cleanup]
    reads [remote_list], [new_commit], [sysroot] and [origin], none of
    which has been initialised, and hands whatever non-[NULL] contents
    they have to the release functions.  On the path where every step
    succeeds the key file of the origin is passed to [g_object_unref],
    which does not give a [GKeyFile] back. *)
Theorem cleanup_reads_uninitialised_locals :
  effects (trace (run (scripted open_fails) (main dirty_stack) tt))
  = [Acquire the_repo_path; Acquire the_repo; Acquire the_error;
     Release g_object_unref (Object the_repo_path);
     Release g_object_unref (Object the_repo);
     Print stderr ("Failed to open repo: "
                   +:+ "opendir(/sysroot/ostree/repo): No such file or directory"
                   +:+ nl);
     Release g_clear_error (Object the_error);
     ReadIndeterminate v_remote_list; Release g_strfreev (Junk v_remote_list);
     ReadIndeterminate v_new_commit; Release g_free (Junk v_new_commit);
     ReadIndeterminate v_sysroot; Release g_object_unref (Junk v_sysroot);
     ReadIndeterminate v_origin; Release g_object_unref (Junk v_origin);
     Print stderr ("Update failed" +:+ nl)]
  /\ tidy (effects (trace (run (scripted open_fails) (main dirty_stack) tt)))
     = false
  /\ reads_indeterminate
       (effects (trace (run (scripted open_fails) (main zeroed_stack) tt)))
     = true
  /\ acquired the_origin
       (effects (trace (run (scripted all_good) (main zeroed_stack) tt)))
     = true
  /\ times_released the_origin
       (effects (trace (run (scripted all_good) (main zeroed_stack) tt)))
     = 0.
Proof. split_and!; by vm_compute. Qed.

(** ** Further properties of the program *)

(** *** The listing loop *)

Lemma print_remotes_effects (w : World) (s : wstate w) (i : Z) (l : list string) :
  trace (run w (print_remotes i l) s) = Did <$> imap (remote_line i) l.
Proof.
  revert i. induction l as [|r l IH]; intros i; [done|].
  cbn -[pretty String.append Z.add]. rewrite IH. unfold remote_line.
  replace (i + Z.of_nat 0 + 1)%Z with (i + 1)%Z by lia.
  do 2 f_equal. apply imap_ext. intros j x _. cbn -[pretty String.append Z.add Z.of_nat].
  by replace (i + 1 + Z.of_nat j + 1)%Z with (i + Z.of_nat (S j) + 1)%Z by lia.
Qed.

(** X1.  The listing loop makes no call: it prints one line per remote, in the
    order of the listing, numbered upwards from [i + 1]. *)
Theorem listing_loop_prints_each_remote
    (w : World) (s : wstate w) (i : Z) (l : list string) :
  trace (run w (print_remotes i l) s) = Did <$> imap (remote_line i) l
  /\ result (run w (print_remotes i l) s) = Some tt
  /\ final (run w (print_remotes i l) s) = s.
Proof.
  split; [apply print_remotes_effects|].
  destruct (print_remotes_run w s i l) as (_ & Hr & Hf). done.
Qed.

(** *** The search loop *)

(** X2.  The search of lines 149-154 finds a name exactly when the listing
    holds that very string: a listed name that merely starts with it, or
    differs in case, is no match, and nothing is found in an empty
    listing. *)
Theorem remote_is_found_iff_listed (l : list string) (name : string) :
  (remote_exists l name = true <-> name ∈ l)
  /\ remote_exists [] name = false
  /\ forall other, other <> name -> remote_exists [other] name = false.
Proof.
  split; [apply remote_exists_spec|]. split; [done|].
  intros other Hne. destruct (remote_exists [other] name) eqn:H; [|done].
  apply remote_exists_spec, list_elem_of_singleton in H. congruence.
Qed.

(** *** The refspec buffer *)

Lemma substring_0_take (m : nat) (s : string) :
  String.substring 0 m s = string_take m s.
Proof.
  revert s. induction m as [|m IH]; intros [|c s]; simpl; try done.
  by rewrite IH.
Qed.

Lemma string_take_length (m : nat) (s : string) :
  String.length (string_take m s) = Nat.min m (String.length s).
Proof.
  revert s. induction m as [|m IH]; intros [|c s]; simpl; try done.
  by rewrite IH.
Qed.

Lemma string_take_prefix (m : nat) (s : string) :
  exists rest, s = string_take m s +:+ rest.
Proof.
  revert s. induction m as [|m IH]; intros s.
  - exists s. by destruct s.
  - destruct s as [|c s]; [by exists EmptyString|].
    destruct (IH s) as [rest Hrest]. exists rest.
    change (String c s = String c (string_take m s +:+ rest)). by f_equal.
Qed.

Lemma string_take_all (m : nat) (s : string) :
  string_take m s = s <-> String.length s <= m.
Proof.
  split.
  - intros H. pose proof (string_take_length m s) as Hl. rewrite H in Hl. lia.
  - revert s. induction m as [|m IH]; intros [|c s] H; simpl in *; try done.
    + lia.
    + rewrite IH; [done|lia].
Qed.

Lemma string_length_app (a b : string) :
  String.length (a +:+ b) = String.length a + String.length b.
Proof. induction a as [|c a IH]; simpl; [done|]. by rewrite IH. Qed.

(** X3.  Whatever the remote and the ref, the refspec [create_origin] writes
    is the start of "remote:ref", seven characters at most; it is the
    whole of it exactly when remote and ref have six characters or fewer
    between them. *)
Theorem refspec_is_a_short_prefix (old remote_name ref : string) :
  refspec_of old remote_name ref
    = string_take 7 (remote_name +:+ ":" +:+ ref)
  /\ String.length (refspec_of old remote_name ref)
     = Nat.min 7 (String.length remote_name + String.length ref + 1)
  /\ (exists rest,
        remote_name +:+ ":" +:+ ref = refspec_of old remote_name ref +:+ rest)
  /\ (refspec_of old remote_name ref = remote_name +:+ ":" +:+ ref
      <-> String.length remote_name + String.length ref <= 6).
Proof.
  assert (refspec_of old remote_name ref
          = string_take 7 (remote_name +:+ ":" +:+ ref)) as ->
    by apply substring_0_take.
  assert (String.length (remote_name +:+ ":" +:+ ref)
          = String.length remote_name + String.length ref + 1) as Hlen.
  { rewrite !string_length_app. simpl. lia. }
  split_and!.
  - done.
  - by rewrite string_take_length, Hlen.
  - apply string_take_prefix.
  - rewrite string_take_all, Hlen. lia.
Qed.

(** *** [open_repo] *)

(** X4.  [open_repo] makes the one call; it gives the path object back on
    both outcomes, returns the repository without releasing it when the
    store opens, and otherwise releases it and returns [NULL] with the
    error of the call. *)
Theorem open_repo_owns_what_it_returns
    (w : World) (s : wstate w) (path : string) (error : option GError) :
  calls (trace (run w (open_repo path error) s))
    = [(ostree_repo_open {| repo_path := path |},
        RStatus (respond w (ostree_repo_open {| repo_path := path |}) s).1)]
  /\ result (run w (open_repo path error) s)
     = Some match (respond w (ostree_repo_open {| repo_path := path |}) s).1 with
            | GOk _ => (Some {| repo_path := path |}, error)
            | GFail e => (None, Some e)
            end
  /\ times_released the_repo_path
       (effects (trace (run w (open_repo path error) s))) = 1
  /\ times_released the_repo
       (effects (trace (run w (open_repo path error) s)))
     = if is_ok (respond w (ostree_repo_open {| repo_path := path |}) s).1
       then 0 else 1.
Proof.
  unfold open_repo, set_by, acquire, release, emit, call; simpl.
  destruct (respond w _ s) as [[[]|e] s1]; simpl; done.
Qed.

(** *** What [main] prints last *)

Lemma printed_app (s : Stream) (a b : list Effect) :
  printed s (a ++ b) = printed s a ++ printed s b.
Proof.
  induction a as [|[[] text| | |] a IH]; destruct s; simpl; try done;
    by rewrite IH.
Qed.

Lemma quiet_printed_stderr (t : list Event) :
  quiet t -> printed stderr (effects t) = [].
Proof. induction 1 as [|e t [text ->] _ IH]; simpl; done. Qed.

Ltac split_effects :=
  repeat progress
    (cbn;
     rewrite ?effects_app, ?printed_app, ?last_cons, ?last_app;
     repeat match goal with
     | H : quiet _ |- _ => rewrite ?(quiet_printed_stderr _ H)
     end).

(** X5.  A run ends in one of four ways: [main] returns the success
    status, with nothing on standard error and the line "All operations
    completed successfully." last on standard output; it returns the
    failure status, with "Update failed" last on standard error; the
    process ends in the trap, before anything is written to standard
    error; or [cleanup] hands a stale pointer to a release function,
    which happens only in runs that stopped before the origin was
    built. *)
Theorem last_line_tells_the_status
    (w : World) (s : wstate w) (stack : Var -> bool) :
  (exit_of (run w (main stack) s) = Returned EXIT_SUCCESS
   /\ printed stderr (effects (trace (run w (main stack) s))) = []
   /\ last (printed stdout (effects (trace (run w (main stack) s))))
      = Some ("All operations completed successfully." +:+ nl))
  \/ (exit_of (run w (main stack) s) = Returned EXIT_FAILURE
      /\ last (printed stderr (effects (trace (run w (main stack) s))))
         = Some ("Update failed" +:+ nl))
  \/ (exit_of (run w (main stack) s) = Killed NullDereference
      /\ printed stderr (effects (trace (run w (main stack) s))) = [])
  \/ (exit_of (run w (main stack) s) = Undetermined
      /\ existsb (fun c => is_build_origin c.1)
           (calls (trace (run w (main stack) s))) = false).
Proof.
  unfold exit_of. rewrite exit_after_bookkeeping. revert w s.
  apply (always_run (main stack) (fun t r =>
    (exit_after (bookkeeping t) r = Returned EXIT_SUCCESS
     /\ printed stderr (effects t) = []
     /\ last (printed stdout (effects t))
        = Some ("All operations completed successfully." +:+ nl))
    \/ (exit_after (bookkeeping t) r = Returned EXIT_FAILURE
        /\ last (printed stderr (effects t)) = Some ("Update failed" +:+ nl))
    \/ (exit_after (bookkeeping t) r = Killed NullDereference
        /\ printed stderr (effects t) = [])
    \/ (exit_after (bookkeeping t) r = Undetermined
        /\ existsb (fun c => is_build_origin c.1) (calls t) = false))).
  exec.
  all: first
    [ left; split; [forget_prints_in_bookkeeping; by vm_compute|];
      split_effects; done
    | right; left; split; [forget_prints_in_bookkeeping; by vm_compute|];
      split_effects; done
    | right; right; left; split; [forget_prints_in_bookkeeping; by vm_compute|];
      split_effects; done
    | right; right; right; split; [forget_prints_in_bookkeeping; by vm_compute|];
      forget_prints; by cbn ].
Qed.

(** *** No retries *)

(** X6.  A run calls each entry point of the collaborators at most once, so
    makes nine calls at most: a failed call is never tried again. *)
Theorem each_entry_point_at_most_once
    (w : World) (s : wstate w) (stack : Var -> bool) :
  NoDup (entry_point <$> (calls (trace (run w (main stack) s))).*1)
  /\ length (calls (trace (run w (main stack) s))) <= 9.
Proof.
  revert w s.
  apply (always_run (main stack) (fun t _ =>
    NoDup (entry_point <$> (calls t).*1) /\ length (calls t) <= 9)).
  exec; forget_prints; cbn; (split; [compute_done | lia]).
Qed.

(** *** What is staged *)

(** X7.  Whatever is staged was resolved and built in the same run: the
    commit passed to the staging call is the one the resolve call
    returned for the ref, the key file is the one returned for the
    origin, and the OS name is "myos". *)
Theorem staged_commit_is_the_resolved_one
    (w : World) (s : wstate w) (stack : Var -> bool)
    (osname commit : string) (keyfile : GKeyFile) (reply : Reply) :
  (ostree_sysroot_stage_tree_with_options osname commit keyfile, reply)
    ∈ calls (trace (run w (main stack) s)) ->
  osname = "myos"
  /\ (ostree_repo_resolve_rev "myOS/amd64/stable" false, RRev (GOk commit))
     ∈ calls (trace (run w (main stack) s))
  /\ (ostree_sysroot_origin_new_from_refspec
        (refspec_of "" "linuxmint" "myOS/amd64/stable"),
      RKeyFile (Some keyfile))
     ∈ calls (trace (run w (main stack) s)).
Proof.
  revert w s.
  apply (always_run (main stack) (fun t _ =>
    (ostree_sysroot_stage_tree_with_options osname commit keyfile, reply)
      ∈ calls t ->
    osname = "myos"
    /\ (ostree_repo_resolve_rev "myOS/amd64/stable" false, RRev (GOk commit))
       ∈ calls t
    /\ (ostree_sysroot_origin_new_from_refspec
          (refspec_of "" "linuxmint" "myOS/amd64/stable"),
        RKeyFile (Some keyfile)) ∈ calls t)).
  exec; forget_prints; cbn in *.
  all: repeat match goal with
       | H : _ ∈ [] |- _ => by apply elem_of_nil in H
       | H : _ ∈ _ :: _ |- _ => apply elem_of_cons in H; destruct H as [H|H]
       end; try discriminate.
  all: match goal with H : (_, _) = (_, _) |- _ => injection H as -> -> -> _ end.
  all: split_and!; [done | find_in | find_in].
Qed.

Lemma staged_commit_is_the_resolved_one_witness :
  (ostree_sysroot_stage_tree_with_options "myos" "c0ffee" 1, RStatus (GOk tt))
    ∈ calls (trace (run (scripted all_good) (main zeroed_stack) tt))
  /\ (ostree_repo_resolve_rev "myOS/amd64/stable" false, RRev (GOk "c0ffee"))
     ∈ calls (trace (run (scripted all_good) (main zeroed_stack) tt)).
Proof.
  assert ((ostree_sysroot_stage_tree_with_options "myos" "c0ffee" 1,
           RStatus (GOk tt))
          ∈ calls (trace (run (scripted all_good) (main zeroed_stack) tt)))
    as Hin.
  { apply list_elem_of_In. vm_compute. intuition reflexivity. }
  split; [exact Hin|].
  exact (proj1 (proj2 (staged_commit_is_the_resolved_one
                         (scripted all_good) tt zeroed_stack
                         "myos" "c0ffee" 1 (RStatus (GOk tt)) Hin))).
Defined.

(** *** The trap *)

(** X8.  A run traps exactly when the call for the origin returns [NULL]:
    every other failure report finds the error its step has stored. *)
Theorem trap_only_on_null_origin
    (w : World) (s : wstate w) (stack : Var -> bool) :
  trapped (result (run w (main stack) s))
  = existsb (fun c => is_build_origin c.1 && negb (succeeded c.2))
      (calls (trace (run w (main stack) s))).
Proof.
  revert w s.
  apply (always_run (main stack) (fun t r =>
    trapped r
    = existsb (fun c => is_build_origin c.1 && negb (succeeded c.2)) (calls t))).
  exec; forget_prints; cbn; done.
Qed.

(** *** Locals read in [cleanup] *)


(** *** Releases *)

(** X10.  In every run that returns, each object the program has acquired,
    the key file of the origin apart, is handed exactly once to the
    function that gives it back: on no path is one of them leaked or
    released twice.  The key file is never given back. *)
Theorem acquired_objects_are_released_once
    (w : World) (s : wstate w) (stack : Var -> bool) :
  trapped (result (run w (main stack) s))
  || forallb (released_once (effects (trace (run w (main stack) s))))
       released_properly = true
  /\ times_released the_origin (effects (trace (run w (main stack) s))) = 0.
Proof.
  rewrite released_once_bookkeeping, times_released_bookkeeping.
  revert w s.
  apply (always_run (main stack) (fun t r =>
    trapped r || forallb (released_once (bookkeeping t)) released_properly
    = true
    /\ times_released the_origin (bookkeeping t) = 0)).
  exec; forget_prints_in_bookkeeping; by vm_compute.
Qed.

(** *** Announcing the staged commit *)

(** X11.  Whenever the staging call succeeds, the run announces on standard
    output the commit it has staged, whether or not the cleanup that
    follows succeeds. *)
Theorem staged_commit_is_announced
    (w : World) (s : wstate w) (stack : Var -> bool)
    (osname commit : string) (keyfile : GKeyFile) :
  (ostree_sysroot_stage_tree_with_options osname commit keyfile,
   RStatus (GOk tt)) ∈ calls (trace (run w (main stack) s)) ->
  Print stdout ("Deployed new commit " +:+ commit
                +:+ ". It will boot on next restart." +:+ nl)
    ∈ effects (trace (run w (main stack) s)).
Proof.
  revert w s.
  apply (always_run (main stack) (fun t _ =>
    (ostree_sysroot_stage_tree_with_options osname commit keyfile,
     RStatus (GOk tt)) ∈ calls t ->
    Print stdout ("Deployed new commit " +:+ commit
                  +:+ ". It will boot on next restart." +:+ nl)
      ∈ effects t)).
  exec; forget_prints; cbn in *.
  all: repeat match goal with
       | H : _ ∈ [] |- _ => by apply elem_of_nil in H
       | H : _ ∈ _ :: _ |- _ => apply elem_of_cons in H; destruct H as [H|H]
       end; try discriminate.
  all: match goal with H : (_, _) = (_, _) |- _ => injection H as -> -> -> end.
  all: rewrite ?effects_app; cbn; find_in.
Qed.

Lemma staged_commit_is_announced_witness :
  Print stdout ("Deployed new commit " +:+ "c0ffee"
                +:+ ". It will boot on next restart." +:+ nl)
    ∈ effects (trace (run (scripted prune_fails) (main zeroed_stack) tt)).
Proof.
  apply (staged_commit_is_announced (scripted prune_fails) tt zeroed_stack
           "myos" "c0ffee" 1).
  apply list_elem_of_In. vm_compute. intuition reflexivity.
Defined.

(** *** Failure reports *)

(** X12.  When a call that takes a [GError **] fails, the run prints the line
    of that step with the message the call stored, unchanged: on
    standard error, except for a failed pull, whose line goes to
    standard output. *)
Theorem failure_is_reported_with_its_message
    (w : World) (s : wstate w) (stack : Var -> bool)
    (o : Op) (r : Reply) (e : GError) :
  (o, r) ∈ calls (trace (run w (main stack) s)) ->
  stored_error r = Some e ->
  report o e ∈ effects (trace (run w (main stack) s)).
Proof.
  exact (always_run _ _ (stored_errors_are_reported stack) w s o r e).
Qed.

Lemma failure_is_reported_with_its_message_witness :
  Print stdout ("Failed to pull refs: "
                +:+ "While fetching: connection timed out" +:+ nl)
    ∈ effects (trace (run (scripted pull_fails) (main zeroed_stack) tt)).
Proof.
  apply (failure_is_reported_with_its_message
           (scripted pull_fails) tt zeroed_stack
           (ostree_repo_pull_with_options "linuxmint" ["myOS/amd64/stable"])
           (RStatus (GFail (io_error "While fetching: connection timed out")))
           (io_error "While fetching: connection timed out")).
  - apply list_elem_of_In. vm_compute. intuition reflexivity.
  - reflexivity.
Defined.

(** *** Registration on a host *)

(** Lines 146-174 on a host, given the listing the store returns
    ([NULL] for the empty store). *)
Lemma ensure_remote_on_host (k : Script) (h : Host) (name url : string)
    (error : option GError) :
  result (run (host k) (ensure_remote name url (listing (remotes h)) error) h)
  = Some (Some tt, error)
  /\ final (run (host k) (ensure_remote name url (listing (remotes h)) error) h)
     = {| remotes := match remotes h !! name with
                     | Some _ => remotes h
                     | None => <[name := url]> (remotes h)
                     end;
          deployments := deployments h |}.
Proof.
  unfold ensure_remote.
  destruct (listing (remotes h)) as [names|] eqn:Hlist.
  - destruct (listing_Some _ _ Hlist) as [_ Hin].
    destruct (remotes h !! name) as [u|] eqn:Hname.
    + rewrite (proj2 (remote_exists_spec names name)) by (apply Hin; eauto).
      cbn. by destruct h.
    + destruct (remote_exists names name) eqn:Hex.
      { apply remote_exists_spec, Hin in Hex. rewrite Hname in Hex.
        by destruct Hex. }
      unfold add_remote, call, set_by, returned, mbind, prog_bind, mret, prog_ret.
      cbn. rewrite Hname. by cbn.
  - apply listing_None in Hlist.
    unfold add_remote, call, set_by, returned, mbind, prog_bind, mret, prog_ret.
    cbn. rewrite Hlist, lookup_empty. by cbn.
Qed.

(** X13.  Given the listing the store returns, [NULL] for an empty store
    included, lines 146-174 register the remote on any host: they
    succeed, the remote is configured afterwards with the URL it already
    had, or with the given one when it was new, no other remote changes,
    and a second pass succeeds and changes nothing. *)
Theorem registration_block_is_idempotent
    (k : Script) (h : Host) (name url : string) (error : option GError) :
  result (run (host k) (ensure_remote name url (listing (remotes h)) error) h)
  = Some (Some tt, error)
  /\ remotes (final (run (host k)
                (ensure_remote name url (listing (remotes h)) error) h)) !! name
     = Some (default url (remotes h !! name))
  /\ (forall other, other <> name ->
        remotes (final (run (host k)
                   (ensure_remote name url (listing (remotes h)) error) h))
          !! other
        = remotes h !! other)
  /\ result (run (host k)
               (ensure_remote name url
                  (listing (remotes (final (run (host k)
                     (ensure_remote name url (listing (remotes h)) error) h))))
                  error)
               (final (run (host k)
                  (ensure_remote name url (listing (remotes h)) error) h)))
     = Some (Some tt, error)
  /\ final (run (host k)
              (ensure_remote name url
                 (listing (remotes (final (run (host k)
                    (ensure_remote name url (listing (remotes h)) error) h))))
                 error)
              (final (run (host k)
                 (ensure_remote name url (listing (remotes h)) error) h)))
     = final (run (host k)
                (ensure_remote name url (listing (remotes h)) error) h).
Proof.
  destruct (ensure_remote_on_host k h name url error) as [Hr1 Hf1].
  set (h1 := final (run (host k)
                      (ensure_remote name url (listing (remotes h)) error) h))
    in *.
  assert (remotes h1 !! name = Some (default url (remotes h !! name))) as Hname.
  { rewrite Hf1. simpl. destruct (remotes h !! name) eqn:E; simpl; [done|].
    apply lookup_insert_eq. }
  destruct (ensure_remote_on_host k h1 name url error) as [Hr2 Hf2].
  split_and!; [done | done | | done |].
  - intros other Hne. rewrite Hf1. simpl.
    destruct (remotes h !! name); [done|]. by rewrite lookup_insert_ne.
  - rewrite Hf2, Hname. by destruct h1.
Qed.

(** On a host the remotes change only through a registration call. *)
Lemma host_keeps_remotes {A} (k : Script) (p : prog A) (h : Host) :
  existsb (fun c => is_remote_add c.1) (calls (trace (run (host k) p h))) = false ->
  remotes (final (run (host k) p h)) = remotes h.
Proof.
  revert h. induction p as [a|t|e q IH|o q IH]; intros h; simpl; try done.
  - apply IH.
  - destruct o as [| |name url| | | | | |]; simpl;
      try (by apply IH).
    + by destruct (remotes h !! name).
    + destruct (on_stage k); simpl; intros H; by apply IH in H.
    + destruct (on_cleanup k); simpl; intros H; by apply IH in H.
Qed.

(** X14.  What a run of [main] does to the remotes of a host, however it ends:
    when the store opens and lists at least one remote, none of them
    "linuxmint", that remote is configured afterwards with the URL fixed
    in the source, and stays so even if a later step fails; in every
    other case (the store does not open, it lists no remote, or the
    remote is already configured, under any URL) the remotes are
    untouched. *)
Theorem main_registers_at_most_the_remote
    (k : Script) (h : Host) (stack : Var -> bool) :
  remotes (final (run (host k) (main stack) h))
  = remotes_after_main (is_ok (on_open k)) (remotes h).
Proof.
  destruct (main_run (host k) stack h) as (_ & _ & ->).
  unfold main_body, open_repo, set_by, acquire, release, emit, call,
    error_message, fail_to_cleanup, g_print, g_printerr, mbind, prog_bind, mret, prog_ret.
  cbn -[registry_step pull_remote]. unfold remotes_after_main.
  destruct (on_open k) as [[]|e]; cbn -[registry_step pull_remote]; [|done].
  rewrite run_bind.
  pose proof (registry_step_on_host k h "linuxmint"
                "https://updates.myserver.com/ostreerepo" None) as Hreg.
  cbv zeta in Hreg.
  destruct (listing (remotes h)) as [names|];
    [destruct (remotes h !! "linuxmint")|];
    destruct Hreg as (Hr & Hf & _); rewrite Hr; cbv zeta; cbn [final];
    rewrite ?Hf; [| |done].
  all: match goal with
       | |- remotes (final (run _ ?p ?h1)) = _ =>
           transitivity (remotes h1); [|done];
           apply (host_keeps_remotes k);
           apply (always_run p (fun t _ =>
             existsb (fun c => is_remote_add c.1) (calls t) = false))
       end.
  all: exec; cbn; done.
Qed.

(** *** Registering the remote, by name *)

(** The registration block on a host: it succeeds; it makes the
    registration call exactly when the store has no remote of that name,
    and then the store gains the remote with the given URL. *)
Lemma register_on_host (k : Script) (h : Host) (name url : string)
    (error : option GError) :
  result (register_on k h name url error) = Some (Some tt, error)
  /\ existsb (fun c => is_remote_add c.1) (calls (trace (register_on k h name url error)))
     = negb (bool_decide (is_Some (remotes h !! name)))
  /\ final (register_on k h name url error)
     = {| remotes := match remotes h !! name with
                     | Some _ => remotes h
                     | None => <[name := url]> (remotes h)
                     end;
          deployments := deployments h |}.
Proof.
  unfold register_on, ensure_remote.
  destruct (listing (remotes h)) as [names|] eqn:Hlist.
  - destruct (listing_Some _ _ Hlist) as [_ Hin].
    destruct (remotes h !! name) as [u|] eqn:Hname.
    + rewrite (proj2 (remote_exists_spec names name)) by (apply Hin; eauto).
      cbn. by destruct h.
    + destruct (remote_exists names name) eqn:Hex.
      { apply remote_exists_spec, Hin in Hex. rewrite Hname in Hex.
        by destruct Hex. }
      unfold add_remote, call, set_by, returned, mbind, prog_bind, mret, prog_ret.
      cbn. rewrite Hname. by cbn.
  - apply listing_None in Hlist.
    unfold add_remote, call, set_by, returned, mbind, prog_bind, mret, prog_ret.
    cbn. rewrite Hlist, lookup_empty. by cbn.
Qed.

(** C7.  The registration of [main] (lines 146-174, with [add_remote]) is
    idempotent by name.  On any host, for every name and URL, given the
    listing the store returns: a first pass succeeds and a second pass
    with the same arguments succeeds, makes no registration call and
    changes nothing; afterwards the store lists the name, exactly once.
    Where a remote of that name exists already, the first pass too
    succeeds without the registration call and leaves the store, the URL
    of that remote included, as it was, whatever URL is supplied. *)
Theorem registration_is_idempotent_by_name
    (k : Script) (h : Host) (name url : string) (error : option GError) :
  result (register_on k h name url error) = Some (Some tt, error)
  /\ result (register_on k (final (register_on k h name url error))
               name url error)
     = Some (Some tt, error)
  /\ existsb (fun c => is_remote_add c.1)
       (calls (trace (register_on k (final (register_on k h name url error))
                        name url error)))
     = false
  /\ final (register_on k (final (register_on k h name url error))
              name url error)
     = final (register_on k h name url error)
  /\ (exists names,
        listing (remotes (final (register_on k h name url error))) = Some names
        /\ name ∈ names /\ NoDup names)
  /\ remotes (final (register_on k h name url error)) !! name
     = Some (default url (remotes h !! name))
  /\ (forall url0,
        remotes h !! name = Some url0 ->
        existsb (fun c => is_remote_add c.1)
          (calls (trace (register_on k h name url error))) = false
        /\ final (register_on k h name url error) = h).
Proof.
  destruct (register_on_host k h name url error) as (Hr1 & Hc1 & Hf1).
  set (h1 := final (register_on k h name url error)) in *.
  assert (remotes h1 !! name = Some (default url (remotes h !! name))) as Hname.
  { rewrite Hf1. simpl. destruct (remotes h !! name) eqn:E; simpl; [done|].
    apply lookup_insert_eq. }
  destruct (register_on_host k h1 name url error) as (Hr2 & Hc2 & Hf2).
  rewrite Hname in Hc2, Hf2.
  split_and!.
  - done.
  - done.
  - etransitivity; [exact Hc2|]. by rewrite bool_decide_true by eauto.
  - etransitivity; [exact Hf2|]. by destruct h1.
  - destruct (listing (remotes h1)) as [names|] eqn:Hlist.
    + destruct (listing_Some _ _ Hlist) as [Hnd Hin].
      exists names. split_and!; [done | apply Hin; eauto | done].
    + apply listing_None in Hlist. rewrite Hlist, lookup_empty in Hname. done.
  - done.
  - intros url0 Hurl0. rewrite Hurl0 in Hc1, Hf1. split.
    + etransitivity; [exact Hc1|]. by rewrite bool_decide_true by eauto.
    + etransitivity; [exact Hf1|]. by destruct h.
Qed.
